(** * Boid flock and starfield of the homepage background

    A shallow embedding of [applyBoidRules], [updateFishAnimation] (module
    fish-animation), of the older inline [animate] loop of [App.tsx] and of
    [drawStars], together with the properties the specification states about
    them.

    Conventions of the embedding.
    - A JavaScript [number] is a real number.  Overflow, rounding and NaN of
      IEEE doubles are outside the model.
    - A division by zero, which in JavaScript produces [Infinity] or [NaN]
      instead of raising, is the failure [None] of the [option] monad: a
      computation that returns [Some v] never divided by zero and [v] is a
      finite vector.
    - [Math.random()] reads the next element of a stream of reals.
    - [window.innerWidth] and [window.innerHeight] are pixel counts
      (naturals), read from a [Viewport] that is fixed during one frame.
    - The rendering engine (three.js) is outside the repository; the few
      [Vector3] methods the code calls are written out from their three.js
      definitions, and a mesh is reduced to the position and the orientation
      the simulator writes into it. *)

From Stdlib Require Import Reals Lra List ZArith Bool Lia.
Import ListNotations.

Open Scope R_scope.

(** ** The option monad: failure is a division by zero *)

Definition bind {A B : Type} (c : option A) (k : A -> option B) : option B :=
  match c with
  | Some a => k a
  | None => None
  end.

Notation "x <- c ;; k" := (bind c (fun x => k))
  (at level 61, c at next level, right associativity).

(** ** THREE.Vector3 *)

Module Vector3.

Record t : Type := mk { x : R; y : R; z : R }.

(** [new THREE.Vector3()] *)
Definition zero : t := mk 0 0 0.

(** [a.add(b)] *)
Definition add (a b : t) : t := mk (x a + x b) (y a + y b) (z a + z b).

(** [a.sub(b)], and [new Vector3().subVectors(a, b)] *)
Definition sub (a b : t) : t := mk (x a - x b) (y a - y b) (z a - z b).

(** [v.multiplyScalar(s)] *)
Definition multiplyScalar (v : t) (s : R) : t := mk (x v * s) (y v * s) (z v * s).

(** [v.lengthSq()] *)
Definition lengthSq (v : t) : R := x v * x v + y v * y v + z v * z v.

(** [v.length()]: [Math.sqrt(x*x + y*y + z*z)] *)
Definition length (v : t) : R := sqrt (lengthSq v).

(** [a.distanceTo(b)]: [Math.sqrt(a.distanceToSquared(b))] *)
Definition distanceTo (a b : t) : R :=
  let dx := x a - x b in
  let dy := y a - y b in
  let dz := z a - z b in
  sqrt (dx * dx + dy * dy + dz * dz).

(** [v.divideScalar(s)]: [v.multiplyScalar(1 / s)]; a zero divisor is the
    failure of the monad. *)
Definition divideScalar (v : t) (s : R) : option t :=
  if Req_dec_T s 0 then None else Some (multiplyScalar v (1 / s)).

(** [v.normalize()]: [v.divideScalar(v.length() || 1)] *)
Definition normalize (v : t) : option t :=
  let l := length v in
  divideScalar v (if Req_dec_T l 0 then 1 else l).

End Vector3.

Abbreviation Vector3 := Vector3.t.

(** Comparisons of numbers, as booleans. *)
Definition ltb (a b : R) : bool := if Rlt_dec a b then true else false.
Definition gtb (a b : R) : bool := ltb b a.

(** ** Data model ([types.ts], and the interfaces at the top of [App.tsx]) *)

(** [THREE.Color]: cosmetic, never read by the simulation. *)
Record Color : Type := mkColor { red : R; green : R; blue : R }.

(** What the simulator writes into a mesh: [mesh.position.copy(p)], and
    [mesh.lookAt(target)] followed by [mesh.rotateY(-Math.PI / 2)]. *)
Inductive Orientation : Type :=
| AsCloned
| LookAtRotateY (target : Vector3).

Record Mesh : Type := mkMesh { meshPosition : Vector3; meshOrientation : Orientation }.

Record Fish : Type := mkFish {
  id : Z;
  position : Vector3;
  velocity : Vector3;
  mesh : option Mesh;
  color : Color
}.

Module Star.
Record t : Type := mk {
  x : R;
  y : R;
  opacity : R;
  baseOpacity : R;
  twinklePhase : R
}.
End Star.

Abbreviation Star := Star.t.

(** [mousePosition: { x: number; y: number }] *)
Module Mouse.
Record t : Type := mk { x : R; y : R }.
End Mouse.

(** [window.innerWidth] and [window.innerHeight], in pixels. *)
Record Viewport : Type := mkViewport { innerWidth : nat; innerHeight : nat }.

Definition halfWidth (w : Viewport) : R := INR (innerWidth w) / 2.
Definition halfHeight (w : Viewport) : R := INR (innerHeight w) / 2.

(** [Math.random()]: the stream of the numbers still to be drawn. *)
Definition Random : Type := nat -> R.

Definition random (s : Random) : R * Random := (s 0%nat, fun n => s (S n)).

(** ** applyBoidRules *)

Definition separationRadius : R := 50.
Definition alignmentRadius : R := 80.
Definition cohesionRadius : R := 120.
Definition mouseAttractionRadius : R := 200.

(** The three accumulators and their counters, local to one call. *)
Record Rules : Type := mkRules {
  separation : Vector3;
  alignment : Vector3;
  cohesion : Vector3;
  separationCount : nat;
  alignmentCount : nat;
  cohesionCount : nat
}.

Definition noRules : Rules :=
  mkRules Vector3.zero Vector3.zero Vector3.zero 0 0 0.

(** The body of [neighbors.forEach((neighbor) => ...)]. *)
Definition visitNeighbor (fish : Fish) (acc : Rules) (neighbor : Fish) : option Rules :=
  if (id neighbor =? id fish)%Z then Some acc
  else
    let distance := Vector3.distanceTo (position fish) (position neighbor) in
    let diff := Vector3.sub (position fish) (position neighbor) in
    acc1 <- (if ltb distance separationRadius && gtb distance 0 then
               unit <- Vector3.normalize diff ;;
               diff' <- Vector3.divideScalar unit distance ;;
               Some (mkRules (Vector3.add (separation acc) diff') (alignment acc)
                       (cohesion acc)
                       (S (separationCount acc)) (alignmentCount acc)
                       (cohesionCount acc))
             else Some acc) ;;
    let acc2 :=
      if ltb distance alignmentRadius then
        mkRules (separation acc1) (Vector3.add (alignment acc1) (velocity neighbor))
          (cohesion acc1)
          (separationCount acc1) (S (alignmentCount acc1)) (cohesionCount acc1)
      else acc1 in
    let acc3 :=
      if ltb distance cohesionRadius then
        mkRules (separation acc2) (alignment acc2)
          (Vector3.add (cohesion acc2) (position neighbor))
          (separationCount acc2) (alignmentCount acc2) (S (cohesionCount acc2))
      else acc2 in
    Some acc3.

Fixpoint forEachNeighbor (fish : Fish) (neighbors : list Fish) (acc : Rules)
  : option Rules :=
  match neighbors with
  | [] => Some acc
  | neighbor :: rest =>
      acc' <- visitNeighbor fish acc neighbor ;;
      forEachNeighbor fish rest acc'
  end.

(** [mousePos]: the pointer in the centred frame of the simulation. *)
Definition mousePos (mousePosition : Mouse.t) (w : Viewport) : Vector3 :=
  Vector3.mk (Mouse.x mousePosition - INR (innerWidth w) / 2)
             (- (Mouse.y mousePosition - INR (innerHeight w) / 2))
             0.

Definition mouseAttractionRule (fish : Fish) (mousePosition : Mouse.t) (w : Viewport)
  : option Vector3 :=
  let mousePos := mousePos mousePosition w in
  let mouseDistance := Vector3.distanceTo (position fish) mousePos in
  if ltb mouseDistance mouseAttractionRadius && gtb mouseDistance 0 then
    unit <- Vector3.normalize (Vector3.sub mousePos (position fish)) ;;
    Some (Vector3.multiplyScalar unit 0.3)
  else Some Vector3.zero.

Definition separationRule (acc : Rules) : option Vector3 :=
  if (0 <? separationCount acc)%nat then
    mean <- Vector3.divideScalar (separation acc) (INR (separationCount acc)) ;;
    unit <- Vector3.normalize mean ;;
    Some (Vector3.multiplyScalar unit 0.5)
  else Some (separation acc).

Definition alignmentRule (acc : Rules) : option Vector3 :=
  if (0 <? alignmentCount acc)%nat then
    mean <- Vector3.divideScalar (alignment acc) (INR (alignmentCount acc)) ;;
    unit <- Vector3.normalize mean ;;
    Some (Vector3.multiplyScalar unit 0.1)
  else Some (alignment acc).

Definition cohesionRule (fish : Fish) (acc : Rules) : option Vector3 :=
  if (0 <? cohesionCount acc)%nat then
    mean <- Vector3.divideScalar (cohesion acc) (INR (cohesionCount acc)) ;;
    unit <- Vector3.normalize (Vector3.sub mean (position fish)) ;;
    Some (Vector3.multiplyScalar unit 0.05)
  else Some (cohesion acc).

(** The four vectors as they stand just before the final sum. *)
Record Forces : Type := mkForces {
  separationForce : Vector3;
  alignmentForce : Vector3;
  cohesionForce : Vector3;
  mouseAttraction : Vector3
}.

Definition boidForces (fish : Fish) (neighbors : list Fish)
    (mousePosition : Mouse.t) (w : Viewport) : option Forces :=
  acc <- forEachNeighbor fish neighbors noRules ;;
  m <- mouseAttractionRule fish mousePosition w ;;
  s <- separationRule acc ;;
  a <- alignmentRule acc ;;
  c <- cohesionRule fish acc ;;
  Some (mkForces s a c m).

(** [applyBoidRules] of fish-animation, with the window it reads made a
    parameter.  The callback of the same name in [App.tsx] has the same body
    and reads the pointer from [mouseRef.current]. *)
Definition applyBoidRules (fish : Fish) (neighbors : list Fish)
    (mousePosition : Mouse.t) (w : Viewport) : option Vector3 :=
  f <- boidForces fish neighbors mousePosition w ;;
  Some (Vector3.add
          (Vector3.add
             (Vector3.add (Vector3.add Vector3.zero (separationForce f))
                (alignmentForce f))
             (cohesionForce f))
          (mouseAttraction f)).

(** ** The per-frame step *)

(** The random vector added to the velocity; three draws, in argument order. *)
Definition jitter (rnd : Random) : Vector3 * Random :=
  let (r1, rnd1) := random rnd in
  let (r2, rnd2) := random rnd1 in
  let (r3, rnd3) := random rnd2 in
  (Vector3.mk ((r1 - 0.5) * 0.01) ((r2 - 0.5) * 0.01) ((r3 - 0.5) * 0.005), rnd3).

(** [if (v.length() > maxSpeed) v.normalize().multiplyScalar(maxSpeed)] *)
Definition limitSpeed (maxSpeed : R) (v : Vector3) : option Vector3 :=
  if gtb (Vector3.length v) maxSpeed then
    unit <- Vector3.normalize v ;;
    Some (Vector3.multiplyScalar unit maxSpeed)
  else Some v.

(** Position and velocity of one fish during its update. *)
Record Motion : Type := mkMotion { at_ : Vector3; speed : Vector3 }.

(** Force, jitter, speed limit, damping and [position.add(velocity)]: the
    state of the fish just before the boundary handling. *)
Definition integrate (maxSpeed damping : R) (fish : Fish) (boidForce noise : Vector3)
  : option Motion :=
  let v1 := Vector3.add (velocity fish) boidForce in
  let v2 := Vector3.add v1 noise in
  v3 <- limitSpeed maxSpeed v2 ;;
  let v4 := Vector3.multiplyScalar v3 damping in
  Some (mkMotion (Vector3.add (position fish) v4) v4).

(** One axis of the boundary handling: the new position and velocity
    components. *)
Definition outside (bound p : R) : bool := ltb p (- bound) || gtb p bound.

Definition bounceAxis (bound p v : R) : R * R :=
  if outside bound p then (Rmax (- bound) (Rmin bound p), v * -0.8) else (p, v).

Definition bounce (w : Viewport) (m : Motion) : Motion :=
  let (px, vx) := bounceAxis (halfWidth w) (Vector3.x (at_ m)) (Vector3.x (speed m)) in
  let (py, vy) := bounceAxis (halfHeight w) (Vector3.y (at_ m)) (Vector3.y (speed m)) in
  let (pz, vz) := bounceAxis 100 (Vector3.z (at_ m)) (Vector3.z (speed m)) in
  mkMotion (Vector3.mk px py pz) (Vector3.mk vx vy vz).

(** Mesh update: copy the position, and turn the mesh when the fish moves
    faster than 0.01. *)
Definition orient (m : Motion) (old : Mesh) : option Mesh :=
  if gtb (Vector3.length (speed m)) 0.01 then
    direction <- Vector3.normalize (speed m) ;;
    let targetPos := Vector3.add (at_ m) direction in
    Some (mkMesh (at_ m) (LookAtRotateY targetPos))
  else Some (mkMesh (at_ m) (meshOrientation old)).

(** The body of [fishes.forEach((fish) => ...)] past the mesh test; [fishes]
    is the array as it stands when this fish is reached. *)
Definition updateFish (maxSpeed damping : R) (w : Viewport) (mousePosition : Mouse.t)
    (fishes : list Fish) (fish : Fish) (m : Mesh) (rnd : Random)
  : option (Fish * Random) :=
  boidForce <- applyBoidRules fish fishes mousePosition w ;;
  let (noise, rnd') := jitter rnd in
  moved <- integrate maxSpeed damping fish boidForce noise ;;
  let final := bounce w moved in
  m' <- orient final m ;;
  Some (mkFish (id fish) (at_ final) (speed final) (Some m') (color fish), rnd').

(** [fishes.forEach]: the fish are objects mutated in place, so a fish sees
    the new state of those before it in the array and the old state of those
    after it.  [updated] holds the fish already visited, [rest] those still to
    visit; the array is [updated ++ rest]. *)
Fixpoint forEachFish (maxSpeed damping : R) (w : Viewport) (mousePosition : Mouse.t)
    (updated rest : list Fish) (rnd : Random) : option (list Fish * Random) :=
  match rest with
  | [] => Some (updated, rnd)
  | fish :: rest' =>
      match mesh fish with
      | None =>
          forEachFish maxSpeed damping w mousePosition (updated ++ [fish]) rest' rnd
      | Some m =>
          r <- updateFish maxSpeed damping w mousePosition (updated ++ fish :: rest')
                 fish m rnd ;;
          forEachFish maxSpeed damping w mousePosition (updated ++ [fst r]) rest' (snd r)
      end
  end.

(** [updateFishAnimation] of fish-animation: [maxSpeed = 5], damping 0.98. *)
Definition updateFishAnimation (fishes : list Fish) (mousePosition : Mouse.t)
    (w : Viewport) (rnd : Random) : option (list Fish * Random) :=
  forEachFish 5 0.98 w mousePosition [] fishes rnd.

(** The fish loop of [animate] in [App.tsx]: [maxSpeed = 3], damping 0.99. *)
Definition animateFishes (fishes : list Fish) (mousePosition : Mouse.t)
    (w : Viewport) (rnd : Random) : option (list Fish * Random) :=
  forEachFish 3 0.99 w mousePosition [] fishes rnd.

(** ** drawStars ([App.tsx]) *)

Record Canvas : Type := mkCanvas { width : R; height : R; context2d : bool }.

Inductive DrawCall : Type :=
| ClearRect (x y w h : R)
| FillArc (globalAlpha x y radius : R).

(** The state change in the body of [starsRef.current.forEach]. *)
Definition twinkle (star : Star) : Star :=
  let twinklePhase := Star.twinklePhase star + 0.02 in
  Star.mk (Star.x star) (Star.y star)
    (Star.baseOpacity star + sin twinklePhase * 0.1)
    (Star.baseOpacity star) twinklePhase.

Definition drawStar (star : Star) : DrawCall :=
  FillArc (Star.opacity star) (Star.x star) (Star.y star) 1.

Definition drawStars (canvas : option Canvas) (stars : list Star)
  : list Star * list DrawCall :=
  match canvas with
  | None => (stars, [])
  | Some c =>
      if context2d c then
        let stars' := map twinkle stars in
        (stars', ClearRect 0 0 (width c) (height c) :: map drawStar stars')
      else (stars, [])
  end.

(** ** The rules in the words of the specification

    These definitions follow the specification, not the code; the theorems
    below compare them with what [applyBoidRules] computes. *)

Definition distance (a b : Fish) : R := Vector3.distanceTo (position a) (position b).

(** A neighbor is another agent. *)
Definition isOther (fish neighbor : Fish) : bool := negb (id neighbor =? id fish)%Z.

(** Strictly closer than the separation radius, and not at distance zero. *)
Definition repels (fish neighbor : Fish) : bool :=
  isOther fish neighbor && ltb (distance fish neighbor) 50 && gtb (distance fish neighbor) 0.

Definition aligns (fish neighbor : Fish) : bool :=
  isOther fish neighbor && ltb (distance fish neighbor) 80.

Definition coheres (fish neighbor : Fish) : bool :=
  isOther fish neighbor && ltb (distance fish neighbor) 120.

(** [v / |v|]; the vector of length zero is left as it is. *)
Definition unitVector (v : Vector3) : Vector3 :=
  Vector3.multiplyScalar v
    (1 / (if Req_dec_T (Vector3.length v) 0 then 1 else Vector3.length v)).

(** The unit vector pointing from the neighbor to the agent, scaled by the
    inverse of their distance. *)
Definition awayFrom (fish neighbor : Fish) : Vector3 :=
  Vector3.multiplyScalar
    (unitVector (Vector3.sub (position fish) (position neighbor)))
    (1 / distance fish neighbor).

Definition sumOf (l : list Vector3) : Vector3 := fold_right Vector3.add Vector3.zero l.

Definition averageOf (l : list Vector3) : Vector3 :=
  Vector3.multiplyScalar (sumOf l) (1 / INR (List.length l)).

Definition separationSpec (fish : Fish) (neighbors : list Fish) : Vector3 :=
  match filter (repels fish) neighbors with
  | [] => Vector3.zero
  | near =>
      Vector3.multiplyScalar (unitVector (averageOf (map (awayFrom fish) near))) 0.5
  end.

(** The pointer in the centred frame. *)
Definition pointerTarget (mousePosition : Mouse.t) (w : Viewport) : Vector3 :=
  Vector3.mk (Mouse.x mousePosition - halfWidth w)
             (- (Mouse.y mousePosition - halfHeight w))
             0.

Definition pointerAttractionSpec (fish : Fish) (mousePosition : Mouse.t) (w : Viewport)
  : Vector3 :=
  let target := pointerTarget mousePosition w in
  let d := Vector3.distanceTo (position fish) target in
  if ltb d 200 && gtb d 0 then
    Vector3.multiplyScalar
      (Vector3.multiplyScalar (Vector3.sub target (position fish)) (1 / d)) 0.3
  else Vector3.zero.

(** The accumulators at the end of the loop over the neighbors. *)
Definition accumulated (fish : Fish) (neighbors : list Fish) : Rules :=
  mkRules
    (sumOf (map (awayFrom fish) (filter (repels fish) neighbors)))
    (sumOf (map velocity (filter (aligns fish) neighbors)))
    (sumOf (map position (filter (coheres fish) neighbors)))
    (List.length (filter (repels fish) neighbors))
    (List.length (filter (aligns fish) neighbors))
    (List.length (filter (coheres fish) neighbors)).

(** How the loop of the per-frame step relates a fish before and after: a
    fish without a mesh is left as it is, a fish with a mesh satisfies [Q]. *)
Definition afterStep (Q : Fish -> Fish -> Prop) (fish fish' : Fish) : Prop :=
  match mesh fish with
  | Some _ => Q fish fish'
  | None => fish' = fish
  end.

(** Inside the box of the boundary handling. *)
Definition inBounds (w : Viewport) (p : Vector3) : Prop :=
  - halfWidth w <= Vector3.x p <= halfWidth w /\
  - halfHeight w <= Vector3.y p <= halfHeight w /\
  - 100 <= Vector3.z p <= 100.

(** One axis of the boundary reflection, in the words of the specification:
    from position [p] and velocity [v] to [p'] and [v'], within [-bound, bound]. *)
Definition reflected (bound p v p' v' : R) : Prop :=
  (p > bound -> v' = v * -0.8 /\ p' = bound) /\
  (p < - bound -> v' = v * -0.8 /\ p' = - bound) /\
  (- bound <= p <= bound -> v' = v /\ p' = p).

(** ** Sample inputs *)

Definition white : Color := mkColor 1 1 1.

(** A window of 100 by 100 pixels: [halfWidth = halfHeight = 50]. *)
Definition smallWindow : Viewport := mkViewport 100 100.

Definition noMouse : Mouse.t := Mouse.mk 0 0.

(** [Math.random()] returning 0.5 at every call: no jitter. *)
Definition steady : Random := fun _ => 0.5.

Definition someMesh : Mesh := mkMesh Vector3.zero AsCloned.

(** A fish without a mesh, far outside the window and faster than any cap. *)
Definition strandedFish : Fish :=
  mkFish 7 (Vector3.mk 1000 0 0) (Vector3.mk 100 0 0) None white.

(** A fish that has just moved 5 past the right edge of [smallWindow]. *)
Definition crossing : Motion := mkMotion (Vector3.mk 55 0 0) (Vector3.mk 2 0 0).

(** A fish at the origin, one 10 away from it, one 300 away, and one at the
    very same place. *)
Definition loneFish : Fish :=
  mkFish 0 Vector3.zero (Vector3.mk 1 0 0) (Some someMesh) white.

Definition nearFish : Fish :=
  mkFish 1 (Vector3.mk 10 0 0) (Vector3.mk 0 1 0) (Some someMesh) white.

Definition farFish : Fish :=
  mkFish 2 (Vector3.mk 300 0 0) (Vector3.mk 0 1 0) (Some someMesh) white.

Definition twinFish : Fish :=
  mkFish 3 Vector3.zero (Vector3.mk 0 1 0) (Some someMesh) white.

(** A fish close to the right edge of [smallWindow], far too fast. *)
Definition edgeFish : Fish :=
  mkFish 4 (Vector3.mk 49.5 0 0) (Vector3.mk 100 0 0) (Some someMesh) white.

(** In [smallWindow]: the pointer at (100, 0, 0), at (500, 0, 0) and at the
    origin of the simulation frame. *)
Definition mouseNear : Mouse.t := Mouse.mk 150 50.
Definition mouseFar : Mouse.t := Mouse.mk 550 50.
Definition mouseCentre : Mouse.t := Mouse.mk 50 50.

Definition dimStar : Star := Star.mk 10 20 0.25 0.3 0.

(** * The rest of the scene: set-up, events and frames *)

(** ** Array.from and the draws of Math.random *)

(** [Array.from({ length }, (_, i) => f(i))], the callback drawing from the
    random stream; [i] is the index of the first element. *)
Fixpoint arrayFrom {A : Type} (length i : nat) (f : nat -> Random -> A * Random)
    (rnd : Random) : list A * Random :=
  match length with
  | O => ([], rnd)
  | S n =>
      let (a, rnd1) := f i rnd in
      let (l, rnd2) := arrayFrom n (S i) f rnd1 in
      (a :: l, rnd2)
  end.

(** Every value of [Math.random()] lies in [0, 1). *)
Definition inUnitInterval (rnd : Random) : Prop := forall n, 0 <= rnd n < 1.

(** The stream after [k] draws. *)
Definition after (k : nat) (rnd : Random) : Random := fun n => rnd (k + n)%nat.

(** ** initializeFish *)

(** One element of the flock: seven draws, in the order of the object
    literal.  [vxy] and [vz] are the widths of the initial velocity: 4 and 1
    in fish-animation, 2 and 0.5 in [App.tsx].  [setHSL] stands for
    [new THREE.Color().setHSL], [model] for the loaded mesh that is cloned. *)
Definition newFish (vxy vz : R) (setHSL : R -> R -> R -> Color) (model : Mesh)
    (i : nat) (rnd : Random) : Fish * Random :=
  let (r1, rnd1) := random rnd in
  let (r2, rnd2) := random rnd1 in
  let (r3, rnd3) := random rnd2 in
  let (r4, rnd4) := random rnd3 in
  let (r5, rnd5) := random rnd4 in
  let (r6, rnd6) := random rnd5 in
  let (r7, rnd7) := random rnd6 in
  let position := Vector3.mk ((r1 - 0.5) * 400) ((r2 - 0.5) * 400) (r3 * 100 - 50) in
  let velocity := Vector3.mk ((r4 - 0.5) * vxy) ((r5 - 0.5) * vxy) ((r6 - 0.5) * vz) in
  (mkFish (Z.of_nat i) position velocity
     (Some (mkMesh position (meshOrientation model)))
     (setHSL r7 0.7 0.6),
   rnd7).

(** [initializeFish] of fish-animation: no model, no fish. *)
Definition initializeFish (setHSL : R -> R -> R -> Color) (fishModel : option Mesh)
    (rnd : Random) : list Fish * Random :=
  match fishModel with
  | None => ([], rnd)
  | Some model => arrayFrom 32 0 (newFish 4 1 setHSL model) rnd
  end.

(** ** initializeStars ([App.tsx]) *)

Definition newStar (w : Viewport) (rnd : Random) : Star * Random :=
  let (r1, rnd1) := random rnd in
  let (r2, rnd2) := random rnd1 in
  let (r3, rnd3) := random rnd2 in
  let (r4, rnd4) := random rnd3 in
  let (r5, rnd5) := random rnd4 in
  (Star.mk (r1 * INR (innerWidth w)) (r2 * INR (innerHeight w))
     (0.2 + r3 * 0.3) (0.2 + r4 * 0.3) (r5 * PI * 2),
   rnd5).

Definition initializeStars (w : Viewport) (rnd : Random) : list Star * Random :=
  arrayFrom 80 0 (fun _ => newStar w) rnd.

(** ** The component ThreeFishScene of [App.tsx] *)

(** [THREE.OrthographicCamera]: the four sides of its frustum, near and far. *)
Record Camera : Type := mkCamera {
  left : R; right : R; top : R; bottom : R; near : R; far : R
}.

(** The renderer, reduced to the size given to [setSize]. *)
Record Renderer : Type := mkRenderer { rendererWidth : R; rendererHeight : R }.

(** The refs of the component; [sceneRef] and [animationRef] only record
    whether a scene is set and whether a frame is requested. *)
Record ThreeFishScene : Type := mkScene {
  sceneRef : bool;
  rendererRef : option Renderer;
  cameraRef : option Camera;
  animationRef : bool;
  mouseRef : Mouse.t;
  fishesRef : list Fish;
  fishModelRef : option Mesh;
  canvasRef : option Canvas;
  starsRef : list Star
}.

(** [initializeFish] of [App.tsx]: needs the model and the scene, and
    replaces the flock. *)
Definition initializeFishRef (setHSL : R -> R -> R -> Color) (s : ThreeFishScene)
    (rnd : Random) : ThreeFishScene * Random :=
  match fishModelRef s with
  | None => (s, rnd)
  | Some model =>
      if sceneRef s then
        let (fishes, rnd') := arrayFrom 32 0 (newFish 2 0.5 setHSL model) rnd in
        (mkScene (sceneRef s) (rendererRef s) (cameraRef s) (animationRef s)
           (mouseRef s) fishes (fishModelRef s) (canvasRef s) (starsRef s),
         rnd')
      else (s, rnd)
  end.

(** [loadFishModel]: [loaded] is what [loader.loadAsync] gives, [None] when
    it throws (the error is logged and nothing else happens). *)
Definition loadFishModel (setHSL : R -> R -> R -> Color) (loaded : option Mesh)
    (s : ThreeFishScene) (rnd : Random) : ThreeFishScene * Random :=
  match loaded with
  | None => (s, rnd)
  | Some model =>
      initializeFishRef setHSL
        (mkScene (sceneRef s) (rendererRef s) (cameraRef s) (animationRef s)
           (mouseRef s) (fishesRef s) (Some model) (canvasRef s) (starsRef s))
        rnd
  end.

(** [animate]: one frame.  Without renderer, scene or camera nothing happens
    and no further frame is requested. *)
Definition animate (w : Viewport) (s : ThreeFishScene) (rnd : Random)
  : option (ThreeFishScene * Random) :=
  match rendererRef s, sceneRef s, cameraRef s with
  | Some _, true, Some _ =>
      let stars' := fst (drawStars (canvasRef s) (starsRef s)) in
      r <- animateFishes (fishesRef s) (mouseRef s) w rnd ;;
      Some (mkScene (sceneRef s) (rendererRef s) (cameraRef s) true
              (mouseRef s) (fst r) (fishModelRef s) (canvasRef s) stars',
            snd r)
  | _, _, _ =>
      Some (mkScene (sceneRef s) (rendererRef s) (cameraRef s) false
              (mouseRef s) (fishesRef s) (fishModelRef s) (canvasRef s) (starsRef s),
            rnd)
  end.

(** [handleResize], run when the window has taken the size [w]. *)
Definition handleResize (w : Viewport) (s : ThreeFishScene) : ThreeFishScene :=
  let width := INR (innerWidth w) in
  let height := INR (innerHeight w) in
  mkScene (sceneRef s)
    (option_map (fun _ => mkRenderer width height) (rendererRef s))
    (option_map
       (fun camera =>
          mkCamera (width / -2) (width / 2) (height / 2) (height / -2)
            (near camera) (far camera))
       (cameraRef s))
    (animationRef s) (mouseRef s) (fishesRef s) (fishModelRef s)
    (option_map (fun canvas => mkCanvas width height (context2d canvas)) (canvasRef s))
    (starsRef s).

(** [handleMouseMove] *)
Definition handleMouseMove (clientX clientY : R) (s : ThreeFishScene) : ThreeFishScene :=
  mkScene (sceneRef s) (rendererRef s) (cameraRef s) (animationRef s)
    (Mouse.mk clientX clientY) (fishesRef s) (fishModelRef s) (canvasRef s) (starsRef s).

(** The effect run when the component is mounted, up to the first request of
    a frame; [has2d] tells whether the canvas gives a 2D context. *)
Definition mount (has2d : bool) (w : Viewport) (rnd : Random) : ThreeFishScene * Random :=
  let width := INR (innerWidth w) in
  let height := INR (innerHeight w) in
  let (stars, rnd') := initializeStars w rnd in
  (mkScene true
     (Some (mkRenderer width height))
     (Some (mkCamera (width / -2) (width / 2) (height / 2) (height / -2) (-200) 1000))
     true
     (Mouse.mk 0 0)
     []
     None
     (Some (mkCanvas width height has2d))
     stars,
   rnd').

(** What happens to the mounted component: the window is resized, the
    pointer moves, the loading of the model ends, a requested frame comes. *)
Inductive Event : Type :=
| Resize (w : Viewport)
| MouseMove (clientX clientY : R)
| ModelLoaded (loaded : option Mesh)
| AnimationFrame.

Record World : Type := mkWorld {
  window : Viewport;
  refs : ThreeFishScene;
  randomness : Random
}.

Definition handle (setHSL : R -> R -> R -> Color) (e : Event) (world : World)
  : option World :=
  match e with
  | Resize w => Some (mkWorld w (handleResize w (refs world)) (randomness world))
  | MouseMove clientX clientY =>
      Some (mkWorld (window world) (handleMouseMove clientX clientY (refs world))
              (randomness world))
  | ModelLoaded loaded =>
      let (s, rnd) := loadFishModel setHSL loaded (refs world) (randomness world) in
      Some (mkWorld (window world) s rnd)
  | AnimationFrame =>
      if animationRef (refs world) then
        r <- animate (window world) (refs world) (randomness world) ;;
        Some (mkWorld (window world) (fst r) (snd r))
      else Some world
  end.

Fixpoint run (setHSL : R -> R -> R -> Color) (events : list Event) (world : World)
  : option World :=
  match events with
  | [] => Some world
  | e :: rest =>
      world' <- handle setHSL e world ;;
      run setHSL rest world'
  end.

Definition mounted (has2d : bool) (w : Viewport) (rnd : Random) : World :=
  mkWorld w (fst (mount has2d w rnd)) (snd (mount has2d w rnd)).

(** ** More of the rules, as closed forms *)

Definition dot (a b : Vector3) : R :=
  Vector3.x a * Vector3.x b + Vector3.y a * Vector3.y b + Vector3.z a * Vector3.z b.

Definition alignmentClosed (fish : Fish) (neighbors : list Fish) : Vector3 :=
  match filter (aligns fish) neighbors with
  | [] => Vector3.zero
  | near => Vector3.multiplyScalar (unitVector (averageOf (map velocity near))) 0.1
  end.

Definition cohesionClosed (fish : Fish) (neighbors : list Fish) : Vector3 :=
  match filter (coheres fish) neighbors with
  | [] => Vector3.zero
  | near =>
      Vector3.multiplyScalar
        (unitVector (Vector3.sub (averageOf (map position near)) (position fish))) 0.05
  end.

(** The box of the initial positions, and the speed a fish may have. *)
Definition inSpawnBox (p : Vector3) : Prop :=
  - 200 <= Vector3.x p < 200 /\ - 200 <= Vector3.y p < 200 /\ - 50 <= Vector3.z p < 50.

Definition inFrustum (c : Camera) (p : Vector3) : Prop :=
  left c <= Vector3.x p <= right c /\ bottom c <= Vector3.y p <= top c.

(** The mesh of a fish is where the fish is. *)
Definition meshInPlace (fish : Fish) : Prop :=
  match mesh fish with
  | Some m => meshPosition m = position fish
  | None => True
  end.

(** ** What stays true of the mounted component *)

(** The refs are set, a frame is requested, and renderer, camera and canvas
    have the size of the window [w]. *)
Definition followsWindow (has2d : bool) (w : Viewport) (s : ThreeFishScene) : Prop :=
  sceneRef s = true /\
  animationRef s = true /\
  rendererRef s = Some (mkRenderer (INR (innerWidth w)) (INR (innerHeight w))) /\
  cameraRef s =
    Some (mkCamera (- halfWidth w) (halfWidth w) (halfHeight w) (- halfHeight w)
            (-200) 1000) /\
  canvasRef s = Some (mkCanvas (INR (innerWidth w)) (INR (innerHeight w)) has2d).

(** The flock of [App.tsx]: not there yet, or the 32 fish of ids 0 to 31,
    each with its mesh in place and not faster than 3. *)
Definition flockOfApp (fishes : list Fish) : Prop :=
  (fishes = [] \/ map id fishes = map Z.of_nat (seq 0 32)) /\
  Forall
    (fun fish =>
       mesh fish <> None /\ meshInPlace fish /\ Vector3.length (velocity fish) <= 3)
    fishes.

(** The stars are those of [stars0], up to opacity and phase. *)
Definition sameStars (stars0 stars : list Star) : Prop :=
  map Star.x stars = map Star.x stars0 /\
  map Star.y stars = map Star.y stars0 /\
  map Star.baseOpacity stars = map Star.baseOpacity stars0.

Definition steadyWorld (has2d : bool) (stars0 : list Star) (world : World) : Prop :=
  followsWindow has2d (window world) (refs world) /\
  flockOfApp (fishesRef (refs world)) /\
  sameStars stars0 (starsRef (refs world)) /\
  inUnitInterval (randomness world).

(** No model was ever loaded. *)
Definition neverLoaded (events : list Event) : Prop :=
  forall model, ~ In (ModelLoaded (Some model)) events.

(** A star after [n] draws. *)
Definition twinkled (n : nat) (star : Star) : Star :=
  Star.mk (Star.x star) (Star.y star)
    (Star.baseOpacity star + sin (Star.twinklePhase star + INR n * 0.02) * 0.1)
    (Star.baseOpacity star)
    (Star.twinklePhase star + INR n * 0.02).

(** A model arrives, the window is resized, the pointer moves. *)
Definition someEvents : list Event :=
  [AnimationFrame; ModelLoaded (Some someMesh); AnimationFrame;
   Resize (mkViewport 300 200); MouseMove 10 20].

(** The loading of the model fails. *)
Definition eventsWithoutModel : list Event :=
  [AnimationFrame; ModelLoaded None; Resize (mkViewport 300 200); AnimationFrame].

Definition plainColor : R -> R -> R -> Color := fun _ _ _ => white.

(** The window after the events: that of the last resize. *)
Definition windowAfter (events : list Event) (w : Viewport) : Viewport :=
  fold_left (fun w e => match e with Resize w' => w' | _ => w end) events w.

(** The successive calls of [updateFishAnimation] made by [animate] of the
    component that uses fish-animation, one per frame, each with the pointer
    and the window of its frame. *)
Fixpoint stepFrames (frames : list (Mouse.t * Viewport)) (fishes : list Fish)
    (rnd : Random) : option (list Fish * Random) :=
  match frames with
  | [] => Some (fishes, rnd)
  | (mousePosition, w) :: rest =>
      r <- updateFishAnimation fishes mousePosition w rnd ;;
      stepFrames rest (fst r) (snd r)
  end.

(** The flock made by [initializeFish], later on: the ids 0 to 31, every fish
    with its mesh in place and within the speed limit 5. *)
Definition flockOfModule (fishes : list Fish) : Prop :=
  map id fishes = map Z.of_nat (seq 0 32) /\
  Forall
    (fun fish =>
       mesh fish <> None /\ meshInPlace fish /\ Vector3.length (velocity fish) <= 5)
    fishes.

(** * Facts about numbers and vectors *)

Lemma ltb_true (a b : R) : ltb a b = true <-> a < b.
Proof. unfold ltb. destruct (Rlt_dec a b); split; intros; auto; discriminate. Qed.

Lemma ltb_false (a b : R) : ltb a b = false <-> b <= a.
Proof.
  unfold ltb. destruct (Rlt_dec a b); split; intros; auto; try discriminate; lra.
Qed.

Lemma gtb_true (a b : R) : gtb a b = true <-> a > b.
Proof. unfold gtb. rewrite ltb_true. reflexivity. Qed.

Lemma gtb_false (a b : R) : gtb a b = false <-> a <= b.
Proof. unfold gtb. rewrite ltb_false. reflexivity. Qed.

(** Case analysis on every comparison in the goal. *)
Ltac compare_reals :=
  repeat match goal with
    | |- context [ltb ?a ?b] =>
        let E := fresh "E" in
        destruct (ltb a b) eqn:E;
        [apply ltb_true in E | apply ltb_false in E]
    | |- context [gtb ?a ?b] =>
        let E := fresh "E" in
        destruct (gtb a b) eqn:E;
        [apply gtb_true in E | apply gtb_false in E]
    end.

Lemma vector_eq (a b : Vector3) :
  Vector3.x a = Vector3.x b -> Vector3.y a = Vector3.y b ->
  Vector3.z a = Vector3.z b -> a = b.
Proof. destruct a, b; simpl; intros; subst; reflexivity. Qed.

Lemma add_zero_l (v : Vector3) : Vector3.add Vector3.zero v = v.
Proof. apply vector_eq; simpl; ring. Qed.

Lemma add_zero_r (v : Vector3) : Vector3.add v Vector3.zero = v.
Proof. apply vector_eq; simpl; ring. Qed.

Lemma add_assoc (a b c : Vector3) :
  Vector3.add (Vector3.add a b) c = Vector3.add a (Vector3.add b c).
Proof. apply vector_eq; simpl; ring. Qed.

Lemma lengthSq_nonneg (v : Vector3) : 0 <= Vector3.lengthSq v.
Proof. unfold Vector3.lengthSq. nra. Qed.

Lemma length_nonneg (v : Vector3) : 0 <= Vector3.length v.
Proof. apply sqrt_pos. Qed.

Lemma distanceTo_sub (a b : Vector3) :
  Vector3.distanceTo a b = Vector3.length (Vector3.sub a b).
Proof. reflexivity. Qed.

Lemma distanceTo_sym (a b : Vector3) : Vector3.distanceTo a b = Vector3.distanceTo b a.
Proof. unfold Vector3.distanceTo. f_equal. ring. Qed.

Lemma length_multiplyScalar (v : Vector3) (s : R) :
  Vector3.length (Vector3.multiplyScalar v s) = Rabs s * Vector3.length v.
Proof.
  unfold Vector3.length.
  replace (Vector3.lengthSq (Vector3.multiplyScalar v s))
    with (s * s * Vector3.lengthSq v)
    by (unfold Vector3.lengthSq, Vector3.multiplyScalar; simpl; ring).
  pose proof (lengthSq_nonneg v).
  rewrite sqrt_mult_alt by nra.
  f_equal. replace (s * s) with (Rsqr s) by reflexivity. apply sqrt_Rsqr_abs.
Qed.

Lemma length_multiplyScalar_pos (v : Vector3) (s : R) :
  0 <= s -> Vector3.length (Vector3.multiplyScalar v s) = s * Vector3.length v.
Proof. intros Hs. rewrite length_multiplyScalar, Rabs_pos_eq; auto. Qed.

Lemma length_le_of_lengthSq (a b : Vector3) :
  Vector3.lengthSq a <= Vector3.lengthSq b -> Vector3.length a <= Vector3.length b.
Proof. intros H. unfold Vector3.length. apply sqrt_le_1_alt, H. Qed.

(** Comparing a length with a number without computing the square root. *)
Lemma length_ge_of_sq (v : Vector3) (d : R) :
  0 <= d -> d * d <= Vector3.lengthSq v -> d <= Vector3.length v.
Proof.
  intros Hd H. rewrite <- (sqrt_square d Hd). apply sqrt_le_1_alt, H.
Qed.

Lemma length_lt_of_sq (v : Vector3) (d : R) :
  0 <= d -> Vector3.lengthSq v < d * d -> Vector3.length v < d.
Proof.
  intros Hd H. rewrite <- (sqrt_square d Hd).
  apply sqrt_lt_1_alt. split; [apply lengthSq_nonneg | exact H].
Qed.

Lemma length_pos_of_sq (v : Vector3) : 0 < Vector3.lengthSq v -> 0 < Vector3.length v.
Proof. intros H. apply sqrt_lt_R0, H. Qed.

(** ** normalize *)

Lemma normalize_unitVector (v : Vector3) : Vector3.normalize v = Some (unitVector v).
Proof.
  unfold Vector3.normalize, Vector3.divideScalar, unitVector.
  destruct (Req_dec_T (Vector3.length v) 0) as [E | N].
  - destruct (Req_dec_T 1 0); [lra | reflexivity].
  - destruct (Req_dec_T (Vector3.length v) 0); [contradiction | reflexivity].
Qed.

Lemma unitVector_nonzero (v : Vector3) :
  Vector3.length v <> 0 ->
  unitVector v = Vector3.multiplyScalar v (1 / Vector3.length v).
Proof.
  intros N. unfold unitVector.
  destruct (Req_dec_T (Vector3.length v) 0); [contradiction | reflexivity].
Qed.

Lemma unitVector_length_one (v : Vector3) :
  Vector3.length v <> 0 -> Vector3.length (unitVector v) = 1.
Proof.
  intros N. rewrite unitVector_nonzero by exact N.
  pose proof (length_nonneg v).
  rewrite length_multiplyScalar_pos.
  - field. exact N.
  - apply Rlt_le. unfold Rdiv. rewrite Rmult_1_l. apply Rinv_0_lt_compat. lra.
Qed.

Lemma divideScalar_nonzero (v : Vector3) (s : R) :
  s <> 0 -> Vector3.divideScalar v s = Some (Vector3.multiplyScalar v (1 / s)).
Proof.
  intros N. unfold Vector3.divideScalar. destruct (Req_dec_T s 0); [contradiction | reflexivity].
Qed.

(** * applyBoidRules: what the loop over the neighbors accumulates *)

(** Stepping through the binds of a computation whose parts are known. *)
Ltac step_bind :=
  repeat first
    [ rewrite normalize_unitVector
    | rewrite divideScalar_nonzero by (try lra; auto)
    | progress cbn [bind] ].

Lemma visitNeighbor_spec (fish : Fish) (acc : Rules) (neighbor : Fish) :
  visitNeighbor fish acc neighbor =
  Some (mkRules
          (if repels fish neighbor
           then Vector3.add (separation acc) (awayFrom fish neighbor)
           else separation acc)
          (if aligns fish neighbor
           then Vector3.add (alignment acc) (velocity neighbor)
           else alignment acc)
          (if coheres fish neighbor
           then Vector3.add (cohesion acc) (position neighbor)
           else cohesion acc)
          (if repels fish neighbor then S (separationCount acc) else separationCount acc)
          (if aligns fish neighbor then S (alignmentCount acc) else alignmentCount acc)
          (if coheres fish neighbor then S (cohesionCount acc) else cohesionCount acc)).
Proof.
  unfold visitNeighbor, repels, aligns, coheres, isOther, awayFrom, distance,
    separationRadius, alignmentRadius, cohesionRadius.
  destruct (id neighbor =? id fish)%Z; cbn [negb andb].
  - destruct acc; reflexivity.
  - destruct (ltb _ 50) eqn:E50; cbn [andb].
    + destruct (gtb _ 0) eqn:E0.
      * apply gtb_true in E0. step_bind.
        destruct (ltb _ 80), (ltb _ 120); reflexivity.
      * cbn [bind]. destruct (ltb _ 80), (ltb _ 120); destruct acc; reflexivity.
    + cbn [bind]. destruct (ltb _ 80), (ltb _ 120); destruct acc; reflexivity.
Qed.

Lemma forEachNeighbor_spec (fish : Fish) (neighbors : list Fish) :
  forall acc,
    forEachNeighbor fish neighbors acc =
    Some (mkRules
            (fold_left Vector3.add
               (map (awayFrom fish) (filter (repels fish) neighbors)) (separation acc))
            (fold_left Vector3.add
               (map velocity (filter (aligns fish) neighbors)) (alignment acc))
            (fold_left Vector3.add
               (map position (filter (coheres fish) neighbors)) (cohesion acc))
            (separationCount acc + List.length (filter (repels fish) neighbors))
            (alignmentCount acc + List.length (filter (aligns fish) neighbors))
            (cohesionCount acc + List.length (filter (coheres fish) neighbors))).
Proof.
  induction neighbors as [| n rest IH]; intros acc.
  - cbn. rewrite !Nat.add_0_r. destruct acc; reflexivity.
  - cbn [forEachNeighbor]. rewrite visitNeighbor_spec. cbn [bind]. rewrite IH.
    cbn [separation alignment cohesion separationCount alignmentCount cohesionCount filter].
    destruct (repels fish n), (aligns fish n), (coheres fish n);
      cbn [map fold_left List.length]; rewrite <- ?Nat.add_succ_comm; reflexivity.
Qed.

Lemma fold_left_add_sumOf (l : list Vector3) :
  forall a, fold_left Vector3.add l a = Vector3.add a (sumOf l).
Proof.
  induction l as [| v l IH]; intros a; cbn.
  - symmetry. apply add_zero_r.
  - rewrite IH. apply add_assoc.
Qed.

Lemma INR_S_nonzero (n : nat) : INR (S n) <> 0.
Proof. apply not_0_INR. discriminate. Qed.

(** ** The four rules never fail *)

Lemma separationRule_spec (acc : Rules) :
  separationRule acc =
  Some (if (0 <? separationCount acc)%nat
        then Vector3.multiplyScalar
               (unitVector (Vector3.multiplyScalar (separation acc)
                              (1 / INR (separationCount acc)))) 0.5
        else separation acc).
Proof.
  unfold separationRule. destruct (separationCount acc) as [| k]; [reflexivity |].
  cbn [Nat.ltb Nat.leb]. pose proof (INR_S_nonzero k). step_bind. reflexivity.
Qed.

Lemma alignmentRule_spec (acc : Rules) :
  alignmentRule acc =
  Some (if (0 <? alignmentCount acc)%nat
        then Vector3.multiplyScalar
               (unitVector (Vector3.multiplyScalar (alignment acc)
                              (1 / INR (alignmentCount acc)))) 0.1
        else alignment acc).
Proof.
  unfold alignmentRule. destruct (alignmentCount acc) as [| k]; [reflexivity |].
  cbn [Nat.ltb Nat.leb]. pose proof (INR_S_nonzero k). step_bind. reflexivity.
Qed.

Lemma cohesionRule_spec (fish : Fish) (acc : Rules) :
  cohesionRule fish acc =
  Some (if (0 <? cohesionCount acc)%nat
        then Vector3.multiplyScalar
               (unitVector
                  (Vector3.sub (Vector3.multiplyScalar (cohesion acc)
                                  (1 / INR (cohesionCount acc)))
                     (position fish))) 0.05
        else cohesion acc).
Proof.
  unfold cohesionRule. destruct (cohesionCount acc) as [| k]; [reflexivity |].
  cbn [Nat.ltb Nat.leb]. pose proof (INR_S_nonzero k). step_bind. reflexivity.
Qed.

Lemma mousePos_pointerTarget (mousePosition : Mouse.t) (w : Viewport) :
  mousePos mousePosition w = pointerTarget mousePosition w.
Proof. reflexivity. Qed.

Lemma mouseAttractionRule_spec (fish : Fish) (mousePosition : Mouse.t) (w : Viewport) :
  mouseAttractionRule fish mousePosition w =
  Some (pointerAttractionSpec fish mousePosition w).
Proof.
  unfold mouseAttractionRule, pointerAttractionSpec, mouseAttractionRadius.
  rewrite mousePos_pointerTarget.
  set (target := pointerTarget mousePosition w).
  destruct (ltb _ 200) eqn:E200; cbn [andb]; [| reflexivity].
  destruct (gtb _ 0) eqn:E0; [| reflexivity].
  apply gtb_true in E0. step_bind.
  assert (L : Vector3.length (Vector3.sub target (position fish))
              = Vector3.distanceTo (position fish) target)
    by (rewrite distanceTo_sym; reflexivity).
  rewrite unitVector_nonzero by (rewrite L; lra).
  rewrite L. reflexivity.
Qed.

Lemma forEachNeighbor_accumulated (fish : Fish) (neighbors : list Fish) :
  forEachNeighbor fish neighbors noRules = Some (accumulated fish neighbors).
Proof.
  rewrite forEachNeighbor_spec. unfold noRules, accumulated.
  cbn [separation alignment cohesion separationCount alignmentCount cohesionCount].
  rewrite !fold_left_add_sumOf, !add_zero_l. reflexivity.
Qed.

Lemma boidForces_spec (fish : Fish) (neighbors : list Fish)
    (mousePosition : Mouse.t) (w : Viewport) :
  exists s a c,
    separationRule (accumulated fish neighbors) = Some s /\
    alignmentRule (accumulated fish neighbors) = Some a /\
    cohesionRule fish (accumulated fish neighbors) = Some c /\
    boidForces fish neighbors mousePosition w =
    Some (mkForces s a c (pointerAttractionSpec fish mousePosition w)).
Proof.
  unfold boidForces.
  rewrite forEachNeighbor_accumulated, mouseAttractionRule_spec. cbn [bind].
  rewrite separationRule_spec, alignmentRule_spec, cohesionRule_spec. cbn [bind].
  eexists _, _, _. repeat split; reflexivity.
Qed.

Lemma applyBoidRules_spec (fish : Fish) (neighbors : list Fish)
    (mousePosition : Mouse.t) (w : Viewport) :
  exists f,
    boidForces fish neighbors mousePosition w = Some f /\
    applyBoidRules fish neighbors mousePosition w =
    Some (Vector3.add
            (Vector3.add (Vector3.add (separationForce f) (alignmentForce f))
               (cohesionForce f))
            (mouseAttraction f)).
Proof.
  destruct (boidForces_spec fish neighbors mousePosition w) as (s & a & c & _ & _ & _ & E).
  eexists. split; [exact E |].
  unfold applyBoidRules. rewrite E. cbn [bind]. rewrite add_zero_l. reflexivity.
Qed.

Lemma separationRule_accumulated (fish : Fish) (neighbors : list Fish) :
  separationRule (accumulated fish neighbors) = Some (separationSpec fish neighbors).
Proof.
  rewrite separationRule_spec. unfold accumulated, separationSpec.
  cbn [separation separationCount].
  destruct (filter (repels fish) neighbors) as [| n near]; [reflexivity |].
  cbn [List.length Nat.ltb Nat.leb]. unfold averageOf. rewrite length_map. reflexivity.
Qed.

Lemma filter_none {A : Type} (f : A -> bool) (l : list A) :
  (forall a, In a l -> f a = false) -> filter f l = [].
Proof.
  induction l as [| a l IH]; intros H; cbn; [reflexivity |].
  rewrite (H a) by (left; reflexivity). apply IH. intros b Hb. apply H. right. exact Hb.
Qed.

(** * The per-frame step, one fish *)

Lemma limitSpeed_spec (maxSpeed : R) (v : Vector3) :
  limitSpeed maxSpeed v =
  Some (if gtb (Vector3.length v) maxSpeed
        then Vector3.multiplyScalar (unitVector v) maxSpeed
        else v).
Proof.
  unfold limitSpeed. destruct (gtb _ _); [| reflexivity]. step_bind. reflexivity.
Qed.

Lemma limitSpeed_bound (maxSpeed : R) (v v' : Vector3) :
  0 <= maxSpeed -> limitSpeed maxSpeed v = Some v' -> Vector3.length v' <= maxSpeed.
Proof.
  intros Hm. rewrite limitSpeed_spec. intros H. injection H as <-.
  compare_reals.
  - rewrite length_multiplyScalar_pos by exact Hm.
    rewrite unitVector_length_one by lra. lra.
  - exact E.
Qed.

Lemma integrate_spec (maxSpeed damping : R) (fish : Fish) (boidForce noise : Vector3) :
  exists v,
    limitSpeed maxSpeed (Vector3.add (Vector3.add (velocity fish) boidForce) noise)
    = Some v /\
    integrate maxSpeed damping fish boidForce noise =
    Some (mkMotion (Vector3.add (position fish) (Vector3.multiplyScalar v damping))
            (Vector3.multiplyScalar v damping)).
Proof.
  unfold integrate. rewrite limitSpeed_spec. cbn [bind].
  eexists. split; reflexivity.
Qed.

Lemma integrate_bound (maxSpeed damping : R) (fish : Fish) (boidForce noise : Vector3)
    (moved : Motion) :
  0 <= maxSpeed -> 0 <= damping ->
  integrate maxSpeed damping fish boidForce noise = Some moved ->
  Vector3.length (speed moved) <= damping * maxSpeed.
Proof.
  intros Hm Hd H.
  destruct (integrate_spec maxSpeed damping fish boidForce noise) as (v & Hv & E).
  rewrite E in H. injection H as <-. cbn [speed].
  rewrite length_multiplyScalar_pos by exact Hd.
  apply limitSpeed_bound in Hv; [| exact Hm].
  apply Rmult_le_compat_l; assumption.
Qed.

(** ** Boundary handling *)

Lemma outside_true (bound p : R) : outside bound p = true <-> p < - bound \/ p > bound.
Proof.
  unfold outside. rewrite orb_true_iff, ltb_true, gtb_true. reflexivity.
Qed.

Lemma outside_false (bound p : R) : outside bound p = false <-> - bound <= p <= bound.
Proof.
  unfold outside. rewrite orb_false_iff, ltb_false, gtb_false. reflexivity.
Qed.

Lemma clamp_above (bound p : R) :
  0 <= bound -> p > bound -> Rmax (- bound) (Rmin bound p) = bound.
Proof.
  intros Hb Hp. rewrite Rmin_left by lra. apply Rmax_right. lra.
Qed.

Lemma clamp_below (bound p : R) :
  0 <= bound -> p < - bound -> Rmax (- bound) (Rmin bound p) = - bound.
Proof.
  intros Hb Hp. rewrite Rmin_right by lra. apply Rmax_left. lra.
Qed.

Lemma bounceAxis_inside (bound p v : R) :
  0 <= bound -> - bound <= fst (bounceAxis bound p v) <= bound.
Proof.
  intros Hb. unfold bounceAxis. destruct (outside bound p) eqn:E; cbn [fst].
  - apply outside_true in E. destruct E as [E | E].
    + rewrite clamp_below by assumption. lra.
    + rewrite clamp_above by assumption. lra.
  - apply outside_false in E. exact E.
Qed.

Lemma bounceAxis_slower (bound p v : R) :
  snd (bounceAxis bound p v) * snd (bounceAxis bound p v) <= v * v.
Proof.
  unfold bounceAxis. destruct (outside bound p); cbn [snd]; nra.
Qed.

Lemma halfWidth_nonneg (w : Viewport) : 0 <= halfWidth w.
Proof. unfold halfWidth. pose proof (pos_INR (innerWidth w)). lra. Qed.

Lemma halfHeight_nonneg (w : Viewport) : 0 <= halfHeight w.
Proof. unfold halfHeight. pose proof (pos_INR (innerHeight w)). lra. Qed.

Lemma bounce_components (w : Viewport) (m : Motion) :
  bounce w m =
  mkMotion
    (Vector3.mk
       (fst (bounceAxis (halfWidth w) (Vector3.x (at_ m)) (Vector3.x (speed m))))
       (fst (bounceAxis (halfHeight w) (Vector3.y (at_ m)) (Vector3.y (speed m))))
       (fst (bounceAxis 100 (Vector3.z (at_ m)) (Vector3.z (speed m)))))
    (Vector3.mk
       (snd (bounceAxis (halfWidth w) (Vector3.x (at_ m)) (Vector3.x (speed m))))
       (snd (bounceAxis (halfHeight w) (Vector3.y (at_ m)) (Vector3.y (speed m))))
       (snd (bounceAxis 100 (Vector3.z (at_ m)) (Vector3.z (speed m))))).
Proof.
  unfold bounce.
  destruct (bounceAxis (halfWidth w) _ _), (bounceAxis (halfHeight w) _ _),
    (bounceAxis 100 _ _).
  reflexivity.
Qed.

Lemma bounce_inBounds (w : Viewport) (m : Motion) : inBounds w (at_ (bounce w m)).
Proof.
  rewrite bounce_components. unfold inBounds. cbn [at_ Vector3.x Vector3.y Vector3.z].
  repeat split;
    first [ apply bounceAxis_inside; first [apply halfWidth_nonneg | apply halfHeight_nonneg | lra] ].
Qed.

Lemma bounce_slower (w : Viewport) (m : Motion) :
  Vector3.length (speed (bounce w m)) <= Vector3.length (speed m).
Proof.
  apply length_le_of_lengthSq. rewrite bounce_components.
  unfold Vector3.lengthSq. cbn [speed Vector3.x Vector3.y Vector3.z].
  pose proof (bounceAxis_slower (halfWidth w) (Vector3.x (at_ m)) (Vector3.x (speed m))).
  pose proof (bounceAxis_slower (halfHeight w) (Vector3.y (at_ m)) (Vector3.y (speed m))).
  pose proof (bounceAxis_slower 100 (Vector3.z (at_ m)) (Vector3.z (speed m))).
  lra.
Qed.

Lemma orient_spec (m : Motion) (old : Mesh) :
  exists o, orient m old = Some (mkMesh (at_ m) o).
Proof.
  unfold orient. destruct (gtb _ _).
  - step_bind. eexists. reflexivity.
  - eexists. reflexivity.
Qed.

Lemma updateFish_spec (maxSpeed damping : R) (w : Viewport) (mousePosition : Mouse.t)
    (fishes : list Fish) (fish : Fish) (m : Mesh) (rnd : Random) :
  exists boidForce moved o,
    applyBoidRules fish fishes mousePosition w = Some boidForce /\
    integrate maxSpeed damping fish boidForce (fst (jitter rnd)) = Some moved /\
    updateFish maxSpeed damping w mousePosition fishes fish m rnd =
    Some (mkFish (id fish) (at_ (bounce w moved)) (speed (bounce w moved))
            (Some (mkMesh (at_ (bounce w moved)) o)) (color fish),
          snd (jitter rnd)).
Proof.
  destruct (applyBoidRules_spec fish fishes mousePosition w) as (f & _ & EF).
  unfold updateFish. rewrite EF. cbn [bind].
  destruct (jitter rnd) as [noise rnd'] eqn:EJ. cbn [fst snd].
  destruct (integrate_spec maxSpeed damping fish
              (Vector3.add
                 (Vector3.add (Vector3.add (separationForce f) (alignmentForce f))
                    (cohesionForce f)) (mouseAttraction f)) noise)
    as (v & _ & EI).
  rewrite EI. cbn [bind].
  match goal with |- context [orient ?a ?b] => destruct (orient_spec a b) as [o EO] end.
  rewrite EO. cbn [bind].
  eexists _, _, o. split; [reflexivity |]. split; [exact EI |]. reflexivity.
Qed.

(** * The per-frame step, the whole array *)

Section ForEachFish.

Variables (maxSpeed damping : R) (w : Viewport) (mousePosition : Mouse.t).

(** A property of every update carries over to the whole loop, fish by
    fish; the loop never fails. *)
Lemma forEachFish_afterStep (Q : Fish -> Fish -> Prop) :
  (forall fishes fish m rnd r,
      updateFish maxSpeed damping w mousePosition fishes fish m rnd = Some r ->
      Q fish (fst r)) ->
  forall rest updated rnd,
  exists res rnd',
    forEachFish maxSpeed damping w mousePosition updated rest rnd
    = Some (updated ++ res, rnd') /\
    Forall2 (afterStep Q) rest res.
Proof.
  intros HQ. induction rest as [| fish rest IH]; intros updated rnd.
  - exists [], rnd. cbn. rewrite app_nil_r. split; [reflexivity | constructor].
  - cbn [forEachFish]. destruct (mesh fish) as [m |] eqn:Em.
    + destruct (updateFish_spec maxSpeed damping w mousePosition
                  (updated ++ fish :: rest) fish m rnd) as (bf & mv & o & _ & _ & E).
      rewrite E. cbn [bind fst snd].
      match goal with
      | |- context [forEachFish _ _ _ _ (updated ++ [?f']) rest ?rnd1] =>
          destruct (IH (updated ++ [f']) rnd1) as (res & rnd' & ER & HF);
          exists (f' :: res), rnd'
      end.
      split.
      * rewrite ER, <- app_assoc. reflexivity.
      * constructor; [| exact HF].
        unfold afterStep. rewrite Em. apply (HQ _ _ _ _ _ E).
    + destruct (IH (updated ++ [fish]) rnd) as (res & rnd' & ER & HF).
      exists (fish :: res), rnd'. split.
      * rewrite ER, <- app_assoc. reflexivity.
      * constructor; [| exact HF]. unfold afterStep. rewrite Em. reflexivity.
Qed.

(** The same loop, index by index: the fish at index [i] is updated against
    the array whose first [i] elements are already in their new state. *)
Lemma forEachFish_in_place :
  forall rest updated rnd,
  exists res rnd',
    forEachFish maxSpeed damping w mousePosition updated rest rnd
    = Some (updated ++ res, rnd') /\
    List.length res = List.length rest /\
    forall i fish,
      nth_error rest i = Some fish ->
      match mesh fish with
      | None => nth_error res i = Some fish
      | Some m =>
          exists rnd_i r,
            updateFish maxSpeed damping w mousePosition
              (updated ++ firstn i res ++ skipn i rest) fish m rnd_i = Some r /\
            nth_error res i = Some (fst r)
      end.
Proof.
  induction rest as [| fish rest IH]; intros updated rnd.
  - exists [], rnd. cbn. rewrite app_nil_r. repeat split.
    intros [| i] f H; discriminate H.
  - cbn [forEachFish]. destruct (mesh fish) as [m |] eqn:Em.
    + destruct (updateFish_spec maxSpeed damping w mousePosition
                  (updated ++ fish :: rest) fish m rnd) as (bf & mv & o & _ & _ & E).
      rewrite E. cbn [bind fst snd].
      match goal with
      | |- context [forEachFish _ _ _ _ (updated ++ [?f']) rest ?rnd1] =>
          destruct (IH (updated ++ [f']) rnd1) as (res & rnd' & ER & HL & HI);
          exists (f' :: res), rnd'
      end.
      split; [rewrite ER, <- app_assoc; reflexivity |].
      split; [cbn; rewrite HL; reflexivity |].
      intros [| i] f Hf.
      * cbn in Hf. injection Hf as <-. rewrite Em.
        eexists rnd, _. split; [exact E | reflexivity].
      * cbn in Hf. specialize (HI i f Hf).
        cbn [nth_error firstn skipn]. rewrite <- app_assoc in HI. exact HI.
    + destruct (IH (updated ++ [fish]) rnd) as (res & rnd' & ER & HL & HI).
      exists (fish :: res), rnd'.
      split; [rewrite ER, <- app_assoc; reflexivity |].
      split; [cbn; rewrite HL; reflexivity |].
      intros [| i] f Hf.
      * cbn in Hf. injection Hf as <-. rewrite Em. reflexivity.
      * cbn in Hf. specialize (HI i f Hf).
        cbn [nth_error firstn skipn]. rewrite <- app_assoc in HI. exact HI.
Qed.

End ForEachFish.

(** What one update does to a fish, whatever the parameters. *)
Lemma updateFish_bounds (maxSpeed damping : R) (w : Viewport) (mousePosition : Mouse.t)
    (fishes : list Fish) (fish : Fish) (m : Mesh) (rnd : Random) (r : Fish * Random) :
  0 <= maxSpeed -> 0 <= damping ->
  updateFish maxSpeed damping w mousePosition fishes fish m rnd = Some r ->
  Vector3.length (velocity (fst r)) <= damping * maxSpeed /\
  inBounds w (position (fst r)) /\
  id (fst r) = id fish /\ color (fst r) = color fish /\
  mesh (fst r) <> None.
Proof.
  intros Hm Hd H.
  destruct (updateFish_spec maxSpeed damping w mousePosition fishes fish m rnd)
    as (bf & mv & o & _ & EI & E).
  rewrite E in H. injection H as <-. cbn [fst velocity position id color mesh].
  split; [| split; [apply bounce_inBounds | repeat split; discriminate]].
  eapply Rle_trans; [apply bounce_slower |].
  eapply integrate_bound; eassumption.
Qed.

Lemma halfWidth_smallWindow : halfWidth smallWindow = 50.
Proof. unfold halfWidth, smallWindow; cbn [innerWidth]. rewrite INR_IZR_INZ. cbn. lra. Qed.

Lemma halfHeight_smallWindow : halfHeight smallWindow = 50.
Proof. unfold halfHeight, smallWindow; cbn [innerHeight]. rewrite INR_IZR_INZ. cbn. lra. Qed.

Lemma bounceAxis_reflected (bound p v : R) :
  0 <= bound ->
  reflected bound p v (fst (bounceAxis bound p v)) (snd (bounceAxis bound p v)).
Proof.
  intros Hb. unfold reflected, bounceAxis.
  destruct (outside bound p) eqn:E; cbn [fst snd].
  - apply outside_true in E. split; [| split]; intros H.
    + split; [reflexivity | apply clamp_above; assumption].
    + split; [reflexivity | apply clamp_below; assumption].
    + lra.
  - apply outside_false in E. split; [| split]; intros H; solve [lra | split; reflexivity].
Qed.

(** * A sample run

    One fish alone at the origin, moving at (1, 0, 0), the pointer far away
    and no jitter: nothing steers it, its speed is below the cap, the damping
    makes its velocity (0.98, 0, 0), it moves there, stays within the window
    and its mesh is turned towards (1.98, 0, 0). *)

(** Arithmetic on the coordinates of given vectors. *)
Ltac coordinates :=
  unfold Vector3.lengthSq, Vector3.sub, Vector3.add, Vector3.multiplyScalar, Vector3.zero;
  cbn; lra.

Lemma length_along_x (a : R) : Vector3.length (Vector3.mk a 0 0) = Rabs a.
Proof.
  unfold Vector3.length, Vector3.lengthSq. cbn.
  replace (a * a + 0 * 0 + 0 * 0) with (Rsqr a) by (unfold Rsqr; ring).
  apply sqrt_Rsqr_abs.
Qed.

Lemma length_along_x_pos (a : R) : 0 <= a -> Vector3.length (Vector3.mk a 0 0) = a.
Proof. intros Ha. rewrite length_along_x. apply Rabs_pos_eq, Ha. Qed.

Lemma length_along_x_neg (a : R) : a < 0 -> Vector3.length (Vector3.mk a 0 0) = - a.
Proof. intros Ha. rewrite length_along_x. apply Rabs_left, Ha. Qed.

Lemma length_zero_of_sq (v : Vector3) : Vector3.lengthSq v = 0 -> Vector3.length v = 0.
Proof. intros H. unfold Vector3.length. rewrite H. apply sqrt_0. Qed.

Lemma mouseFar_is_far :
  200 <= Vector3.distanceTo (position loneFish) (pointerTarget mouseFar smallWindow).
Proof.
  unfold pointerTarget. rewrite halfWidth_smallWindow, halfHeight_smallWindow.
  rewrite distanceTo_sub. apply length_ge_of_sq; [lra |]. coordinates.
Qed.

Example applyBoidRules_loneFish :
  applyBoidRules loneFish [loneFish] mouseFar smallWindow = Some Vector3.zero.
Proof.
  unfold applyBoidRules, boidForces.
  replace (forEachNeighbor loneFish [loneFish] noRules) with (Some noRules) by reflexivity.
  rewrite mouseAttractionRule_spec. unfold pointerAttractionSpec.
  assert (E : ltb (Vector3.distanceTo (position loneFish) (pointerTarget mouseFar smallWindow))
                200 = false)
    by (apply ltb_false, mouseFar_is_far).
  rewrite E. cbn. rewrite !add_zero_l. reflexivity.
Qed.

Example updateFishAnimation_loneFish :
  updateFishAnimation [loneFish] mouseFar smallWindow steady =
  Some ([mkFish 0 (Vector3.mk 0.98 0 0) (Vector3.mk 0.98 0 0)
           (Some (mkMesh (Vector3.mk 0.98 0 0) (LookAtRotateY (Vector3.mk 1.98 0 0))))
           white],
        steady).
Proof.
  unfold updateFishAnimation. cbn [forEachFish loneFish mesh app].
  change (mkFish 0 Vector3.zero (Vector3.mk 1 0 0) (Some someMesh) white) with loneFish.
  unfold updateFish. rewrite applyBoidRules_loneFish. cbn [bind].
  assert (J : jitter steady = (Vector3.zero, steady)).
  { unfold jitter, random, steady. f_equal. apply vector_eq; cbn; lra. }
  rewrite J.
  assert (V : Vector3.add (Vector3.add (velocity loneFish) Vector3.zero) Vector3.zero
              = Vector3.mk 1 0 0)
    by (rewrite !add_zero_r; reflexivity).
  unfold integrate. rewrite V, limitSpeed_spec.
  assert (G : gtb (Vector3.length (Vector3.mk 1 0 0)) 5 = false)
    by (apply gtb_false; rewrite length_along_x_pos; lra).
  rewrite G. cbn [bind].
  assert (M : Vector3.multiplyScalar (Vector3.mk 1 0 0) 0.98 = Vector3.mk 0.98 0 0)
    by (apply vector_eq; cbn; lra).
  rewrite M.
  assert (P : Vector3.add (position loneFish) (Vector3.mk 0.98 0 0) = Vector3.mk 0.98 0 0)
    by (apply vector_eq; cbn; lra).
  rewrite P.
  assert (B : bounce smallWindow (mkMotion (Vector3.mk 0.98 0 0) (Vector3.mk 0.98 0 0))
              = mkMotion (Vector3.mk 0.98 0 0) (Vector3.mk 0.98 0 0)).
  { unfold bounce, bounceAxis. rewrite halfWidth_smallWindow, halfHeight_smallWindow.
    cbn [at_ speed Vector3.x Vector3.y Vector3.z].
    assert (O1 : outside 50 0.98 = false) by (apply outside_false; lra).
    assert (O2 : outside 50 0 = false) by (apply outside_false; lra).
    assert (O3 : outside 100 0 = false) by (apply outside_false; lra).
    rewrite O1, O2, O3. reflexivity. }
  rewrite B. unfold orient. cbn [speed at_].
  assert (G2 : gtb (Vector3.length (Vector3.mk 0.98 0 0)) 0.01 = true)
    by (apply gtb_true; rewrite length_along_x_pos; lra).
  rewrite G2, normalize_unitVector. cbn [bind fst snd].
  assert (U : Vector3.add (Vector3.mk 0.98 0 0) (unitVector (Vector3.mk 0.98 0 0))
              = Vector3.mk 1.98 0 0).
  { unfold unitVector. rewrite length_along_x_pos by lra.
    destruct (Req_dec_T 0.98 0); [lra |]. apply vector_eq; cbn; lra. }
  rewrite U. reflexivity.
Qed.

(** A second run: a fish at x = 49.5 moving at (100, 0, 0).  Its speed is cut
    to 5 and damped to 4.9; it reaches x = 54.4, beyond the half-width 50, so
    it is put back on the edge with velocity -3.92 = 4.9 * -0.8, and its mesh
    is turned towards (49, 0, 0). *)
Example updateFishAnimation_edgeFish :
  updateFishAnimation [edgeFish] mouseFar smallWindow steady =
  Some ([mkFish 4 (Vector3.mk 50 0 0) (Vector3.mk (-3.92) 0 0)
           (Some (mkMesh (Vector3.mk 50 0 0) (LookAtRotateY (Vector3.mk 49 0 0))))
           white],
        steady).
Proof.
  unfold updateFishAnimation. cbn [forEachFish edgeFish mesh app].
  change (mkFish 4 (Vector3.mk 49.5 0 0) (Vector3.mk 100 0 0) (Some someMesh) white)
    with edgeFish.
  unfold updateFish.
  assert (A : applyBoidRules edgeFish [edgeFish] mouseFar smallWindow = Some Vector3.zero).
  { unfold applyBoidRules, boidForces.
    replace (forEachNeighbor edgeFish [edgeFish] noRules) with (Some noRules) by reflexivity.
    rewrite mouseAttractionRule_spec. unfold pointerAttractionSpec.
    assert (E : ltb (Vector3.distanceTo (position edgeFish)
                       (pointerTarget mouseFar smallWindow)) 200 = false).
    { apply ltb_false. unfold pointerTarget.
      rewrite halfWidth_smallWindow, halfHeight_smallWindow, distanceTo_sub.
      apply length_ge_of_sq; [lra |]. coordinates. }
    rewrite E. cbn. rewrite !add_zero_l. reflexivity. }
  rewrite A. cbn [bind].
  assert (J : jitter steady = (Vector3.zero, steady)).
  { unfold jitter, random, steady. f_equal. apply vector_eq; cbn; lra. }
  rewrite J.
  assert (V : Vector3.add (Vector3.add (velocity edgeFish) Vector3.zero) Vector3.zero
              = Vector3.mk 100 0 0)
    by (rewrite !add_zero_r; reflexivity).
  unfold integrate. rewrite V, limitSpeed_spec.
  assert (G : gtb (Vector3.length (Vector3.mk 100 0 0)) 5 = true)
    by (apply gtb_true; rewrite length_along_x_pos; lra).
  rewrite G. cbn [bind].
  assert (M : Vector3.multiplyScalar
                (Vector3.multiplyScalar (unitVector (Vector3.mk 100 0 0)) 5) 0.98
              = Vector3.mk 4.9 0 0).
  { unfold unitVector. rewrite length_along_x_pos by lra.
    destruct (Req_dec_T 100 0); [lra |]. apply vector_eq; cbn; lra. }
  rewrite M.
  assert (P : Vector3.add (position edgeFish) (Vector3.mk 4.9 0 0) = Vector3.mk 54.4 0 0)
    by (apply vector_eq; cbn; lra).
  rewrite P.
  assert (B : bounce smallWindow (mkMotion (Vector3.mk 54.4 0 0) (Vector3.mk 4.9 0 0))
              = mkMotion (Vector3.mk 50 0 0) (Vector3.mk (-3.92) 0 0)).
  { unfold bounce, bounceAxis. rewrite halfWidth_smallWindow, halfHeight_smallWindow.
    cbn [at_ speed Vector3.x Vector3.y Vector3.z].
    assert (O1 : outside 50 54.4 = true) by (apply outside_true; lra).
    assert (O2 : outside 50 0 = false) by (apply outside_false; lra).
    assert (O3 : outside 100 0 = false) by (apply outside_false; lra).
    rewrite O1, O2, O3, clamp_above by lra.
    f_equal. apply vector_eq; cbn; lra. }
  rewrite B. unfold orient. cbn [speed at_].
  assert (G2 : gtb (Vector3.length (Vector3.mk (-3.92) 0 0)) 0.01 = true)
    by (apply gtb_true; rewrite length_along_x_neg; lra).
  rewrite G2, normalize_unitVector. cbn [bind fst snd].
  assert (U : Vector3.add (Vector3.mk 50 0 0) (unitVector (Vector3.mk (-3.92) 0 0))
              = Vector3.mk 49 0 0).
  { unfold unitVector. rewrite length_along_x_neg by lra.
    replace (- -3.92) with 3.92 by lra.
    destruct (Req_dec_T 3.92 0); [lra |]. apply vector_eq; cbn; lra. }
  rewrite U. reflexivity.
Qed.

(** * The properties of the specification *)

(** ** The per-frame step *)

(** C1. After the integration of a fish (force and jitter added, speed
    capped, damping applied, boundary reflection done) the magnitude of its
    velocity is at most [maxSpeed]: 5 in [updateFishAnimation], 3 in the loop
    of [animate].  The update of one fish always returns and satisfies the
    bound; so does every fish the loop updates, the fish the loop skips being
    left as they are. *)
Theorem velocity_at_most_maxSpeed :
  (forall w mousePosition fishes fish m rnd,
      exists r,
        updateFish 5 0.98 w mousePosition fishes fish m rnd = Some r /\
        Vector3.length (velocity (fst r)) <= 5) /\
  (forall w mousePosition fishes fish m rnd,
      exists r,
        updateFish 3 0.99 w mousePosition fishes fish m rnd = Some r /\
        Vector3.length (velocity (fst r)) <= 3) /\
  (forall fishes mousePosition w rnd,
      exists fishes' rnd',
        updateFishAnimation fishes mousePosition w rnd = Some (fishes', rnd') /\
        Forall2 (afterStep (fun _ fish' => Vector3.length (velocity fish') <= 5))
          fishes fishes') /\
  (forall fishes mousePosition w rnd,
      exists fishes' rnd',
        animateFishes fishes mousePosition w rnd = Some (fishes', rnd') /\
        Forall2 (afterStep (fun _ fish' => Vector3.length (velocity fish') <= 3))
          fishes fishes').
Proof.
  assert (One : forall maxSpeed damping w mousePosition fishes fish m rnd r,
             0 <= maxSpeed -> 0 <= damping <= 1 ->
             updateFish maxSpeed damping w mousePosition fishes fish m rnd = Some r ->
             Vector3.length (velocity (fst r)) <= maxSpeed).
  { intros maxSpeed damping w mp fishes fish m rnd r Hm Hd H.
    apply updateFish_bounds in H; [| lra | lra]. destruct H as [H _].
    assert (damping * maxSpeed <= 1 * maxSpeed) by (apply Rmult_le_compat_r; lra).
    lra. }
  repeat split.
  - intros w mp fishes fish m rnd.
    destruct (updateFish_spec 5 0.98 w mp fishes fish m rnd) as (? & ? & ? & _ & _ & E).
    eexists. split; [exact E |]. refine (One _ _ _ _ _ _ _ _ _ _ _ E); lra.
  - intros w mp fishes fish m rnd.
    destruct (updateFish_spec 3 0.99 w mp fishes fish m rnd) as (? & ? & ? & _ & _ & E).
    eexists. split; [exact E |]. refine (One _ _ _ _ _ _ _ _ _ _ _ E); lra.
  - intros fishes mp w rnd. unfold updateFishAnimation.
    apply (forEachFish_afterStep 5 0.98 w mp
             (fun _ fish' => Vector3.length (velocity fish') <= 5)).
    intros fs f m r0 r H. refine (One _ _ _ _ _ _ _ _ _ _ _ H); lra.
  - intros fishes mp w rnd. unfold animateFishes.
    apply (forEachFish_afterStep 3 0.99 w mp
             (fun _ fish' => Vector3.length (velocity fish') <= 3)).
    intros fs f m r0 r H. refine (One _ _ _ _ _ _ _ _ _ _ _ H); lra.
Qed.

(** C9, as stated, fails for a fish that has no mesh: the loop skips it, so
    neither the speed cap nor the damping is applied to it, and it ends the
    step with the velocity it had, here of magnitude 100, above
    [damping * maxSpeed] = 4.9 and above [maxSpeed] = 5 itself. *)
Lemma meshless_fish_keeps_its_speed :
  updateFishAnimation [strandedFish] noMouse smallWindow steady
  = Some ([strandedFish], steady) /\
  Vector3.length (velocity strandedFish) = 100 /\
  ~ Vector3.length (velocity strandedFish) <= 0.98 * 5 /\
  ~ Vector3.length (velocity strandedFish) <= 5.
Proof.
  assert (L : Vector3.length (velocity strandedFish) = 100)
    by (cbn [velocity strandedFish]; apply length_along_x_pos; lra).
  split; [reflexivity |]. split; [exact L |].
  rewrite L. split; lra.
Qed.

(** C9, amended. The damping is applied after the speed cap and the boundary
    reflection only multiplies velocity components by -0.8, so that at the end
    of the update of a fish that has a mesh the magnitude of its velocity is
    at most [damping * maxSpeed], which is strictly below [maxSpeed]: 4.9 < 5
    in [updateFishAnimation], 2.97 < 3 in the loop of [animate]; whatever the
    steering force and the jitter.  A fish without a mesh is skipped and keeps
    the velocity it had. *)
Theorem velocity_at_most_damped_maxSpeed :
  0.98 * 5 < 5 /\ 0.99 * 3 < 3 /\
  (forall w mousePosition fishes fish m rnd,
      exists r,
        updateFish 5 0.98 w mousePosition fishes fish m rnd = Some r /\
        Vector3.length (velocity (fst r)) <= 0.98 * 5) /\
  (forall w mousePosition fishes fish m rnd,
      exists r,
        updateFish 3 0.99 w mousePosition fishes fish m rnd = Some r /\
        Vector3.length (velocity (fst r)) <= 0.99 * 3) /\
  (forall fishes mousePosition w rnd,
      exists fishes' rnd',
        updateFishAnimation fishes mousePosition w rnd = Some (fishes', rnd') /\
        Forall2 (afterStep (fun _ fish' => Vector3.length (velocity fish') <= 0.98 * 5))
          fishes fishes') /\
  (forall fishes mousePosition w rnd,
      exists fishes' rnd',
        animateFishes fishes mousePosition w rnd = Some (fishes', rnd') /\
        Forall2 (afterStep (fun _ fish' => Vector3.length (velocity fish') <= 0.99 * 3))
          fishes fishes').
Proof.
  split; [lra |]. split; [lra |]. repeat split.
  - intros w mp fishes fish m rnd.
    destruct (updateFish_spec 5 0.98 w mp fishes fish m rnd) as (? & ? & ? & _ & _ & E).
    eexists. split; [exact E |]. apply updateFish_bounds in E; [apply E | lra | lra].
  - intros w mp fishes fish m rnd.
    destruct (updateFish_spec 3 0.99 w mp fishes fish m rnd) as (? & ? & ? & _ & _ & E).
    eexists. split; [exact E |]. apply updateFish_bounds in E; [apply E | lra | lra].
  - intros fishes mp w rnd. unfold updateFishAnimation.
    apply (forEachFish_afterStep 5 0.98 w mp
             (fun _ fish' => Vector3.length (velocity fish') <= 0.98 * 5)).
    intros fs f m r0 r H. apply updateFish_bounds in H; [apply H | lra | lra].
  - intros fishes mp w rnd. unfold animateFishes.
    apply (forEachFish_afterStep 3 0.99 w mp
             (fun _ fish' => Vector3.length (velocity fish') <= 0.99 * 3)).
    intros fs f m r0 r H. apply updateFish_bounds in H; [apply H | lra | lra].
Qed.

(** C2, as stated, fails for a fish that has no mesh: the loop skips it, and
    it stays where it was, here at x = 1000 in a window whose half-width is
    50. *)
Lemma meshless_fish_stays_out_of_bounds :
  updateFishAnimation [strandedFish] noMouse smallWindow steady
  = Some ([strandedFish], steady) /\
  ~ inBounds smallWindow (position strandedFish).
Proof.
  split; [reflexivity |].
  unfold inBounds. rewrite halfWidth_smallWindow. cbn. lra.
Qed.

(** C2, amended. After every invocation of the per-frame step with a fixed
    viewport, every fish that has a mesh is inside the box: x within
    [-halfWidth, halfWidth], y within [-halfHeight, halfHeight] and z within
    [-100, 100]; a fish without a mesh is left where it was. *)
Theorem position_in_bounds :
  (forall maxSpeed damping w mousePosition fishes fish m rnd,
      exists r,
        updateFish maxSpeed damping w mousePosition fishes fish m rnd = Some r /\
        inBounds w (position (fst r))) /\
  (forall fishes mousePosition w rnd,
      exists fishes' rnd',
        updateFishAnimation fishes mousePosition w rnd = Some (fishes', rnd') /\
        Forall2 (afterStep (fun _ fish' => inBounds w (position fish'))) fishes fishes') /\
  (forall fishes mousePosition w rnd,
      exists fishes' rnd',
        animateFishes fishes mousePosition w rnd = Some (fishes', rnd') /\
        Forall2 (afterStep (fun _ fish' => inBounds w (position fish'))) fishes fishes').
Proof.
  assert (One : forall maxSpeed damping w mousePosition fishes fish m rnd r,
             updateFish maxSpeed damping w mousePosition fishes fish m rnd = Some r ->
             inBounds w (position (fst r))).
  { intros maxSpeed damping w mp fishes fish m rnd r H.
    destruct (updateFish_spec maxSpeed damping w mp fishes fish m rnd)
      as (? & ? & ? & _ & _ & E).
    rewrite E in H. injection H as <-. cbn [fst position]. apply bounce_inBounds. }
  repeat split.
  - intros maxSpeed damping w mp fishes fish m rnd.
    destruct (updateFish_spec maxSpeed damping w mp fishes fish m rnd)
      as (? & ? & ? & _ & _ & E).
    eexists. split; [exact E |]. exact (One _ _ _ _ _ _ _ _ _ E).
  - intros fishes mp w rnd. unfold updateFishAnimation.
    apply (forEachFish_afterStep 5 0.98 w mp (fun _ fish' => inBounds w (position fish'))).
    intros fs f m r0 r H. exact (One _ _ _ _ _ _ _ _ _ H).
  - intros fishes mp w rnd. unfold animateFishes.
    apply (forEachFish_afterStep 3 0.99 w mp (fun _ fish' => inBounds w (position fish'))).
    intros fs f m r0 r H. exact (One _ _ _ _ _ _ _ _ _ H).
Qed.

(** C3. The update of a fish ends with the boundary handling applied to the
    state reached after [position += velocity]; on each axis independently, a
    position component outside its bounds has its velocity component
    multiplied by -0.8 and is clamped to the bound it crossed, and a component
    inside is left alone.  In particular a fish that crosses x = halfWidth
    with velocity.x = 2 ends with velocity.x = -1.6 and position.x =
    halfWidth. *)
Theorem boundary_reflection :
  (forall maxSpeed damping w mousePosition fishes fish m rnd,
      exists boidForce moved r,
        applyBoidRules fish fishes mousePosition w = Some boidForce /\
        integrate maxSpeed damping fish boidForce (fst (jitter rnd)) = Some moved /\
        updateFish maxSpeed damping w mousePosition fishes fish m rnd = Some r /\
        position (fst r) = at_ (bounce w moved) /\
        velocity (fst r) = speed (bounce w moved)) /\
  (forall w m,
      reflected (halfWidth w)
        (Vector3.x (at_ m)) (Vector3.x (speed m))
        (Vector3.x (at_ (bounce w m))) (Vector3.x (speed (bounce w m))) /\
      reflected (halfHeight w)
        (Vector3.y (at_ m)) (Vector3.y (speed m))
        (Vector3.y (at_ (bounce w m))) (Vector3.y (speed (bounce w m))) /\
      reflected 100
        (Vector3.z (at_ m)) (Vector3.z (speed m))
        (Vector3.z (at_ (bounce w m))) (Vector3.z (speed (bounce w m)))) /\
  (forall w m,
      Vector3.x (at_ m) > halfWidth w ->
      Vector3.x (speed m) = 2 ->
      Vector3.x (speed (bounce w m)) = -1.6 /\
      Vector3.x (at_ (bounce w m)) = halfWidth w).
Proof.
  assert (Axes : forall w m,
      reflected (halfWidth w)
        (Vector3.x (at_ m)) (Vector3.x (speed m))
        (Vector3.x (at_ (bounce w m))) (Vector3.x (speed (bounce w m))) /\
      reflected (halfHeight w)
        (Vector3.y (at_ m)) (Vector3.y (speed m))
        (Vector3.y (at_ (bounce w m))) (Vector3.y (speed (bounce w m))) /\
      reflected 100
        (Vector3.z (at_ m)) (Vector3.z (speed m))
        (Vector3.z (at_ (bounce w m))) (Vector3.z (speed (bounce w m)))).
  { intros w m. rewrite bounce_components.
    cbn [at_ speed Vector3.x Vector3.y Vector3.z].
    split; [| split]; apply bounceAxis_reflected;
      [apply halfWidth_nonneg | apply halfHeight_nonneg | lra]. }
  split; [| split].
  - intros maxSpeed damping w mp fishes fish m rnd.
    destruct (updateFish_spec maxSpeed damping w mp fishes fish m rnd)
      as (bf & mv & o & EF & EI & E).
    eexists bf, mv, _. split; [exact EF |]. split; [exact EI |].
    split; [exact E |]. split; reflexivity.
  - exact Axes.
  - intros w m Hp Hv.
    destruct (Axes w m) as [[Above _] _].
    destruct (Above Hp) as [V P]. rewrite V, P, Hv. split; [lra | reflexivity].
Qed.

Lemma boundary_reflection_sample :
  Vector3.x (speed (bounce smallWindow crossing)) = -1.6 /\
  Vector3.x (at_ (bounce smallWindow crossing)) = halfWidth smallWindow.
Proof.
  apply (proj2 (proj2 boundary_reflection)).
  - rewrite halfWidth_smallWindow. cbn. lra.
  - reflexivity.
Defined.

(** C10. A fish whose mesh is null is skipped entirely by the loop of the
    per-frame step: it comes out with every field unchanged.  The loop goes
    on, and every fish with a mesh is updated, at its own index, against the
    array in which the fish before it are already in their new state. *)
Theorem meshless_fish_skipped :
  (forall fishes mousePosition w rnd,
      exists fishes' rnd',
        updateFishAnimation fishes mousePosition w rnd = Some (fishes', rnd') /\
        List.length fishes' = List.length fishes /\
        forall i fish,
          nth_error fishes i = Some fish ->
          match mesh fish with
          | None => nth_error fishes' i = Some fish
          | Some m =>
              exists rnd_i r,
                updateFish 5 0.98 w mousePosition
                  (firstn i fishes' ++ skipn i fishes) fish m rnd_i = Some r /\
                nth_error fishes' i = Some (fst r)
          end) /\
  (forall fishes mousePosition w rnd,
      exists fishes' rnd',
        animateFishes fishes mousePosition w rnd = Some (fishes', rnd') /\
        List.length fishes' = List.length fishes /\
        forall i fish,
          nth_error fishes i = Some fish ->
          match mesh fish with
          | None => nth_error fishes' i = Some fish
          | Some m =>
              exists rnd_i r,
                updateFish 3 0.99 w mousePosition
                  (firstn i fishes' ++ skipn i fishes) fish m rnd_i = Some r /\
                nth_error fishes' i = Some (fst r)
          end).
Proof.
  split; intros fishes mp w rnd.
  - exact (forEachFish_in_place 5 0.98 w mp fishes [] rnd).
  - exact (forEachFish_in_place 3 0.99 w mp fishes [] rnd).
Qed.

Lemma meshless_fish_skipped_sample :
  (exists fishes' rnd',
      updateFishAnimation [strandedFish; loneFish] noMouse smallWindow steady
      = Some (fishes', rnd') /\
      nth_error fishes' 0 = Some strandedFish /\
      exists rnd_i r,
        updateFish 5 0.98 smallWindow noMouse
          (firstn 1 fishes' ++ skipn 1 [strandedFish; loneFish]) loneFish someMesh rnd_i
        = Some r /\
        nth_error fishes' 1 = Some (fst r)) /\
  (exists fishes' rnd',
      animateFishes [strandedFish; loneFish] noMouse smallWindow steady
      = Some (fishes', rnd') /\
      nth_error fishes' 0 = Some strandedFish /\
      exists rnd_i r,
        updateFish 3 0.99 smallWindow noMouse
          (firstn 1 fishes' ++ skipn 1 [strandedFish; loneFish]) loneFish someMesh rnd_i
        = Some r /\
        nth_error fishes' 1 = Some (fst r)).
Proof.
  split.
  - destruct (proj1 meshless_fish_skipped [strandedFish; loneFish] noMouse smallWindow steady)
      as (fishes' & rnd' & E & _ & H).
    exists fishes', rnd'. split; [exact E |]. split.
    + exact (H 0%nat strandedFish eq_refl).
    + exact (H 1%nat loneFish eq_refl).
  - destruct (proj2 meshless_fish_skipped [strandedFish; loneFish] noMouse smallWindow steady)
      as (fishes' & rnd' & E & _ & H).
    exists fishes', rnd'. split; [exact E |]. split.
    + exact (H 0%nat strandedFish eq_refl).
    + exact (H 1%nat loneFish eq_refl).
Defined.

(** ** applyBoidRules *)

Lemma multiplyScalar_twice (v : Vector3) (a b : R) :
  Vector3.multiplyScalar (Vector3.multiplyScalar v a) b = Vector3.multiplyScalar v (a * b).
Proof. apply vector_eq; cbn; ring. Qed.

Lemma repels_true (fish neighbor : Fish) :
  repels fish neighbor = true <->
  id neighbor <> id fish /\ 0 < distance fish neighbor < 50.
Proof.
  unfold repels, isOther.
  rewrite !andb_true_iff, negb_true_iff, Z.eqb_neq, ltb_true, gtb_true.
  split; intros H; repeat split; try apply H; lra.
Qed.

Lemma aligns_true (fish neighbor : Fish) :
  aligns fish neighbor = true <-> id neighbor <> id fish /\ distance fish neighbor < 80.
Proof.
  unfold aligns, isOther.
  rewrite !andb_true_iff, negb_true_iff, Z.eqb_neq, ltb_true. reflexivity.
Qed.

Lemma coheres_true (fish neighbor : Fish) :
  coheres fish neighbor = true <-> id neighbor <> id fish /\ distance fish neighbor < 120.
Proof.
  unfold coheres, isOther.
  rewrite !andb_true_iff, negb_true_iff, Z.eqb_neq, ltb_true. reflexivity.
Qed.

Lemma not_true_false (b : bool) : ~ b = true -> b = false.
Proof. destruct b; [intros H; exfalso; apply H; reflexivity | reflexivity]. Qed.

(** C4. The separation contribution computed by [applyBoidRules] is the one
    the specification describes: over the other agents at a distance below 50
    and above 0, the unit vectors pointing from the neighbor to the agent,
    each divided by the distance, are summed, averaged, normalized and scaled
    by 0.5 (zero when there is no such neighbor).  Each such neighbor adds to
    the accumulator a positive multiple of [position(self) -
    position(neighbor)]: the pairwise contribution points from the neighbor to
    the agent. *)
Theorem separation_contribution :
  (forall fish neighbors mousePosition w,
      exists f,
        boidForces fish neighbors mousePosition w = Some f /\
        separationForce f = separationSpec fish neighbors) /\
  (forall fish neighbor,
      repels fish neighbor = true <->
      id neighbor <> id fish /\ 0 < distance fish neighbor < 50) /\
  (forall fish neighbor acc,
      id neighbor <> id fish ->
      0 < distance fish neighbor < 50 ->
      exists acc' c,
        visitNeighbor fish acc neighbor = Some acc' /\
        separation acc' = Vector3.add (separation acc) (awayFrom fish neighbor) /\
        Vector3.length (unitVector (Vector3.sub (position fish) (position neighbor))) = 1 /\
        0 < c /\
        awayFrom fish neighbor =
        Vector3.multiplyScalar (Vector3.sub (position fish) (position neighbor)) c).
Proof.
  split; [| split].
  - intros fish neighbors mp w.
    destruct (boidForces_spec fish neighbors mp w) as (s & a & c & Hs & _ & _ & E).
    eexists. split; [exact E |]. cbn [separationForce].
    rewrite separationRule_accumulated in Hs. injection Hs as <-. reflexivity.
  - exact repels_true.
  - intros fish neighbor acc Hid Hd.
    assert (R : repels fish neighbor = true) by (apply repels_true; split; assumption).
    assert (L : Vector3.length (Vector3.sub (position fish) (position neighbor))
                = distance fish neighbor) by reflexivity.
    eexists _, (1 / distance fish neighbor * (1 / distance fish neighbor)).
    rewrite visitNeighbor_spec, R. split; [reflexivity |]. cbn [separation].
    split; [reflexivity |].
    split; [apply unitVector_length_one; rewrite L; lra |].
    split.
    + assert (0 < 1 / distance fish neighbor)
        by (unfold Rdiv; rewrite Rmult_1_l; apply Rinv_0_lt_compat; lra).
      nra.
    + unfold awayFrom. rewrite unitVector_nonzero by (rewrite L; lra).
      rewrite L. apply multiplyScalar_twice.
Qed.

Lemma distance_loneFish_nearFish : 0 < distance loneFish nearFish < 50.
Proof.
  unfold distance. rewrite distanceTo_sub. split.
  - apply length_pos_of_sq. coordinates.
  - apply length_lt_of_sq; [lra |]. coordinates.
Qed.

Lemma separation_contribution_sample :
  exists acc' c,
    visitNeighbor loneFish noRules nearFish = Some acc' /\
    separation acc' = Vector3.add (separation noRules) (awayFrom loneFish nearFish) /\
    Vector3.length (unitVector (Vector3.sub (position loneFish) (position nearFish))) = 1 /\
    0 < c /\
    awayFrom loneFish nearFish =
    Vector3.multiplyScalar (Vector3.sub (position loneFish) (position nearFish)) c.
Proof.
  apply (proj2 (proj2 separation_contribution)).
  - cbn. discriminate.
  - exact distance_loneFish_nearFish.
Defined.

(** C5. The pointer is converted to the centred frame as [(x - halfWidth,
    -(y - halfHeight), 0)]; when the fish is at a distance below 200 and above
    0 from that point, the pointer attraction is the unit vector from the fish
    towards it scaled by 0.3, and otherwise it is the zero vector. *)
Theorem pointer_attraction :
  (forall fish neighbors mousePosition w,
      exists f,
        boidForces fish neighbors mousePosition w = Some f /\
        mouseAttraction f = pointerAttractionSpec fish mousePosition w) /\
  (forall fish mousePosition w,
      let target :=
        Vector3.mk (Mouse.x mousePosition - halfWidth w)
                   (- (Mouse.y mousePosition - halfHeight w)) 0 in
      let d := Vector3.distanceTo (position fish) target in
      let towards := Vector3.multiplyScalar (Vector3.sub target (position fish)) (1 / d) in
      (0 < d < 200 ->
       mouseAttractionRule fish mousePosition w = Some (Vector3.multiplyScalar towards 0.3) /\
       Vector3.length towards = 1) /\
      (~ 0 < d < 200 ->
       mouseAttractionRule fish mousePosition w = Some Vector3.zero)).
Proof.
  split.
  - intros fish neighbors mp w.
    destruct (boidForces_spec fish neighbors mp w) as (s & a & c & _ & _ & _ & E).
    eexists. split; [exact E | reflexivity].
  - intros fish mp w target d towards.
    rewrite mouseAttractionRule_spec. unfold pointerAttractionSpec.
    change (pointerTarget mp w) with target.
    change (Vector3.distanceTo (position fish) target) with d.
    split.
    + intros [H0 H200].
      assert (E1 : ltb d 200 = true) by (apply ltb_true; exact H200).
      assert (E2 : gtb d 0 = true) by (apply gtb_true; exact H0).
      rewrite E1, E2. cbn [andb]. split; [reflexivity |].
      assert (L : Vector3.length (Vector3.sub target (position fish)) = d)
        by (unfold d; rewrite distanceTo_sym; reflexivity).
      unfold towards. rewrite <- L at 1.
      rewrite <- unitVector_nonzero by (rewrite L; lra).
      apply unitVector_length_one. rewrite L. lra.
    + intros N. destruct (ltb d 200) eqn:E1; cbn [andb]; [| reflexivity].
      destruct (gtb d 0) eqn:E2; [| reflexivity].
      apply ltb_true in E1. apply gtb_true in E2. exfalso. apply N. lra.
Qed.

Lemma pointer_attraction_sample :
  (let target := Vector3.mk (Mouse.x mouseNear - halfWidth smallWindow)
                   (- (Mouse.y mouseNear - halfHeight smallWindow)) 0 in
   let d := Vector3.distanceTo (position loneFish) target in
   let towards := Vector3.multiplyScalar (Vector3.sub target (position loneFish)) (1 / d) in
   mouseAttractionRule loneFish mouseNear smallWindow
   = Some (Vector3.multiplyScalar towards 0.3) /\
   Vector3.length towards = 1) /\
  mouseAttractionRule loneFish mouseFar smallWindow = Some Vector3.zero.
Proof.
  split.
  - apply (proj1 (proj2 pointer_attraction loneFish mouseNear smallWindow)).
    rewrite halfWidth_smallWindow, halfHeight_smallWindow, distanceTo_sub. split.
    + apply length_pos_of_sq. coordinates.
    + apply length_lt_of_sq; [lra |]. coordinates.
  - apply (proj2 (proj2 pointer_attraction loneFish mouseFar smallWindow)).
    pose proof mouseFar_is_far as F. unfold pointerTarget in F. lra.
Defined.

(** C7. A fish with no other fish within 120 and with the pointer at 200 or
    more is not steered: [applyBoidRules] returns exactly the zero vector.
    More generally each rule without a qualifying neighbor contributes the
    zero vector, and the computation does not fail. *)
Theorem isolated_fish_not_steered :
  (forall fish neighbors mousePosition w,
      (forall n, In n neighbors -> id n <> id fish -> 120 <= distance fish n) ->
      200 <= Vector3.distanceTo (position fish) (pointerTarget mousePosition w) ->
      applyBoidRules fish neighbors mousePosition w = Some Vector3.zero) /\
  (forall fish neighbors mousePosition w,
      exists f,
        boidForces fish neighbors mousePosition w = Some f /\
        (filter (repels fish) neighbors = [] -> separationForce f = Vector3.zero) /\
        (filter (aligns fish) neighbors = [] -> alignmentForce f = Vector3.zero) /\
        (filter (coheres fish) neighbors = [] -> cohesionForce f = Vector3.zero) /\
        (~ 0 < Vector3.distanceTo (position fish) (pointerTarget mousePosition w) < 200 ->
         mouseAttraction f = Vector3.zero)).
Proof.
  assert (General : forall fish neighbors mousePosition w,
      exists f,
        boidForces fish neighbors mousePosition w = Some f /\
        (filter (repels fish) neighbors = [] -> separationForce f = Vector3.zero) /\
        (filter (aligns fish) neighbors = [] -> alignmentForce f = Vector3.zero) /\
        (filter (coheres fish) neighbors = [] -> cohesionForce f = Vector3.zero) /\
        (~ 0 < Vector3.distanceTo (position fish) (pointerTarget mousePosition w) < 200 ->
         mouseAttraction f = Vector3.zero)).
  { intros fish neighbors mp w.
    destruct (boidForces_spec fish neighbors mp w) as (s & a & c & Hs & Ha & Hc & E).
    eexists. split; [exact E |].
    cbn [separationForce alignmentForce cohesionForce mouseAttraction].
    rewrite separationRule_spec in Hs. rewrite alignmentRule_spec in Ha.
    rewrite cohesionRule_spec in Hc.
    injection Hs as <-. injection Ha as <-. injection Hc as <-.
    unfold accumulated.
    cbn [separation alignment cohesion separationCount alignmentCount cohesionCount].
    split; [| split; [| split]].
    - intros ->. reflexivity.
    - intros ->. reflexivity.
    - intros ->. reflexivity.
    - intros N. unfold pointerAttractionSpec.
      destruct (ltb _ 200) eqn:E1; cbn [andb]; [| reflexivity].
      destruct (gtb _ 0) eqn:E2; [| reflexivity].
      apply ltb_true in E1. apply gtb_true in E2. exfalso. apply N. lra. }
  split; [| exact General].
  intros fish neighbors mp w Hfar Hmouse.
  destruct (General fish neighbors mp w) as (f & E & Hs & Ha & Hc & Hm).
  unfold applyBoidRules. rewrite E. cbn [bind].
  rewrite Hs, Ha, Hc, Hm.
  - rewrite !add_zero_l. reflexivity.
  - lra.
  - apply filter_none. intros n Hn. apply not_true_false. rewrite coheres_true.
    intros [Hid Hd]. specialize (Hfar n Hn Hid). lra.
  - apply filter_none. intros n Hn. apply not_true_false. rewrite aligns_true.
    intros [Hid Hd]. specialize (Hfar n Hn Hid). lra.
  - apply filter_none. intros n Hn. apply not_true_false. rewrite repels_true.
    intros [Hid Hd]. specialize (Hfar n Hn Hid). lra.
Qed.

Lemma distance_loneFish_farFish : 120 <= distance loneFish farFish.
Proof.
  unfold distance. rewrite distanceTo_sub. apply length_ge_of_sq; [lra |]. coordinates.
Qed.

Lemma isolated_fish_not_steered_sample :
  applyBoidRules loneFish [loneFish; farFish] mouseFar smallWindow = Some Vector3.zero /\
  exists f,
    boidForces loneFish [loneFish; farFish] mouseFar smallWindow = Some f /\
    separationForce f = Vector3.zero /\
    alignmentForce f = Vector3.zero /\
    cohesionForce f = Vector3.zero /\
    mouseAttraction f = Vector3.zero.
Proof.
  pose proof distance_loneFish_farFish as Far.
  pose proof mouseFar_is_far as Pointer.
  split.
  - apply (proj1 isolated_fish_not_steered).
    + intros n [<- | [<- | []]] Hid.
      * exfalso. apply Hid. reflexivity.
      * exact Far.
    + exact Pointer.
  - destruct (proj2 isolated_fish_not_steered loneFish [loneFish; farFish] mouseFar smallWindow)
      as (f & E & Hs & Ha & Hc & Hm).
    exists f. split; [exact E |].
    split; [| split; [| split]].
    + apply Hs. apply filter_none. intros n [<- | [<- | []]]; [reflexivity |].
      apply not_true_false. rewrite repels_true. intros [_ H]. lra.
    + apply Ha. apply filter_none. intros n [<- | [<- | []]]; [reflexivity |].
      apply not_true_false. rewrite aligns_true. intros [_ H]. lra.
    + apply Hc. apply filter_none. intros n [<- | [<- | []]]; [reflexivity |].
      apply not_true_false. rewrite coheres_true. intros [_ H]. lra.
    + apply Hm. lra.
Defined.

(** C8. [applyBoidRules] is total and never divides by zero: for every fish,
    array, pointer and window it returns a vector.  A neighbor at distance
    zero adds nothing to the separation accumulator or to its counter, and a
    pointer at distance zero gives the zero vector for the attraction. *)
Theorem applyBoidRules_total :
  (forall fish neighbors mousePosition w,
      exists v, applyBoidRules fish neighbors mousePosition w = Some v) /\
  (forall fish acc neighbor,
      distance fish neighbor = 0 ->
      exists acc',
        visitNeighbor fish acc neighbor = Some acc' /\
        separation acc' = separation acc /\
        separationCount acc' = separationCount acc) /\
  (forall fish mousePosition w,
      Vector3.distanceTo (position fish) (mousePos mousePosition w) = 0 ->
      mouseAttractionRule fish mousePosition w = Some Vector3.zero).
Proof.
  split; [| split].
  - intros fish neighbors mp w.
    destruct (applyBoidRules_spec fish neighbors mp w) as (f & _ & E).
    eexists. exact E.
  - intros fish acc neighbor Hd.
    assert (R : repels fish neighbor = false).
    { apply not_true_false. rewrite repels_true. intros [_ H]. lra. }
    eexists. rewrite visitNeighbor_spec, R. split; [reflexivity |].
    split; reflexivity.
  - intros fish mp w Hd.
    rewrite mouseAttractionRule_spec. unfold pointerAttractionSpec.
    rewrite <- mousePos_pointerTarget, Hd.
    assert (E : gtb 0 0 = false) by (apply gtb_false; lra).
    rewrite E, andb_false_r. reflexivity.
Qed.

Lemma applyBoidRules_total_sample :
  (exists acc',
      visitNeighbor loneFish noRules twinFish = Some acc' /\
      separation acc' = separation noRules /\
      separationCount acc' = separationCount noRules) /\
  mouseAttractionRule loneFish mouseCentre smallWindow = Some Vector3.zero.
Proof.
  split.
  - apply (proj1 (proj2 applyBoidRules_total)).
    unfold distance. rewrite distanceTo_sub. apply length_zero_of_sq. coordinates.
  - apply (proj2 (proj2 applyBoidRules_total)).
    unfold mousePos. rewrite distanceTo_sub. apply length_zero_of_sq.
    change (INR (innerWidth smallWindow) / 2) with (halfWidth smallWindow).
    change (INR (innerHeight smallWindow) / 2) with (halfHeight smallWindow).
    rewrite halfWidth_smallWindow, halfHeight_smallWindow. coordinates.
Defined.

(** ** drawStars *)

(** C6. One advance of a star adds exactly 0.02 to [twinklePhase] and then
    sets [opacity] to [baseOpacity + sin(twinklePhase) * 0.1] with the new
    phase, leaving the rest of the star alone; [drawStars] does so for every
    star when it has a canvas with a 2D context.  A star with [baseOpacity =
    0.3] and [twinklePhase = 0] has opacity [0.3 + sin(0.02) * 0.1] after one
    advance. *)
Theorem star_advance :
  (forall star,
      Star.twinklePhase (twinkle star) = Star.twinklePhase star + 0.02 /\
      Star.opacity (twinkle star)
      = Star.baseOpacity star + sin (Star.twinklePhase (twinkle star)) * 0.1 /\
      Star.baseOpacity (twinkle star) = Star.baseOpacity star /\
      Star.x (twinkle star) = Star.x star /\
      Star.y (twinkle star) = Star.y star) /\
  (forall canvas stars,
      context2d canvas = true ->
      fst (drawStars (Some canvas) stars) = map twinkle stars) /\
  (forall star,
      Star.baseOpacity star = 0.3 ->
      Star.twinklePhase star = 0 ->
      Star.opacity (twinkle star) = 0.3 + sin 0.02 * 0.1).
Proof.
  split; [| split].
  - intros star. repeat split.
  - intros canvas stars H. unfold drawStars. rewrite H. reflexivity.
  - intros star Hb Hp. unfold twinkle. cbn [Star.opacity].
    rewrite Hb, Hp. rewrite Rplus_0_l. reflexivity.
Qed.

Lemma star_advance_sample :
  fst (drawStars (Some (mkCanvas 100 100 true)) [dimStar]) = [twinkle dimStar] /\
  Star.opacity (twinkle dimStar) = 0.3 + sin 0.02 * 0.1.
Proof.
  split.
  - apply (proj1 (proj2 star_advance)). reflexivity.
  - apply (proj2 (proj2 star_advance)); reflexivity.
Defined.

(** * Beyond the specification: more of applyBoidRules *)

Lemma length_of_zero : Vector3.length Vector3.zero = 0.
Proof. apply length_zero_of_sq. coordinates. Qed.

Lemma lengthSq_add (a b : Vector3) :
  Vector3.lengthSq (Vector3.add a b)
  = Vector3.lengthSq a + 2 * dot a b + Vector3.lengthSq b.
Proof. unfold Vector3.lengthSq, Vector3.add, dot. cbn. ring. Qed.

(** Cauchy-Schwarz, from the identity of Lagrange. *)
Lemma dot_sqr_le (a b : Vector3) :
  dot a b * dot a b <= Vector3.lengthSq a * Vector3.lengthSq b.
Proof.
  destruct a as [a1 a2 a3], b as [b1 b2 b3]. unfold dot, Vector3.lengthSq. cbn.
  assert (H : (a1 * a1 + a2 * a2 + a3 * a3) * (b1 * b1 + b2 * b2 + b3 * b3)
              - (a1 * b1 + a2 * b2 + a3 * b3) * (a1 * b1 + a2 * b2 + a3 * b3)
              = (a1 * b2 - a2 * b1) * (a1 * b2 - a2 * b1)
                + (a1 * b3 - a3 * b1) * (a1 * b3 - a3 * b1)
                + (a2 * b3 - a3 * b2) * (a2 * b3 - a3 * b2)) by ring.
  pose proof (Rle_0_sqr (a1 * b2 - a2 * b1)) as H1.
  pose proof (Rle_0_sqr (a1 * b3 - a3 * b1)) as H2.
  pose proof (Rle_0_sqr (a2 * b3 - a3 * b2)) as H3.
  unfold Rsqr in H1, H2, H3. lra.
Qed.

Lemma sqr_le_le (u v : R) : 0 <= v -> u * u <= v * v -> u <= v.
Proof. intros Hv H. destruct (Rle_dec u v) as [L | N]; [exact L | nra]. Qed.

Lemma dot_le (a b : Vector3) : dot a b <= Vector3.length a * Vector3.length b.
Proof.
  pose proof (length_nonneg a) as Ha. pose proof (length_nonneg b) as Hb.
  apply sqr_le_le; [nra |].
  replace (Vector3.length a * Vector3.length b * (Vector3.length a * Vector3.length b))
    with (Vector3.lengthSq a * Vector3.lengthSq b).
  - apply dot_sqr_le.
  - unfold Vector3.length.
    rewrite <- (sqrt_sqrt (Vector3.lengthSq a)) at 1 by apply lengthSq_nonneg.
    rewrite <- (sqrt_sqrt (Vector3.lengthSq b)) at 1 by apply lengthSq_nonneg.
    ring.
Qed.

Lemma dot_multiplyScalar_l (a b : Vector3) (s : R) :
  dot (Vector3.multiplyScalar a s) b = s * dot a b.
Proof. unfold dot, Vector3.multiplyScalar. cbn. ring. Qed.

Lemma dot_add_l (a b c : Vector3) : dot (Vector3.add a b) c = dot a c + dot b c.
Proof. unfold dot, Vector3.add. cbn. ring. Qed.

Lemma dot_comm (a b : Vector3) : dot a b = dot b a.
Proof. unfold dot. ring. Qed.

Lemma dot_self (a : Vector3) : dot a a = Vector3.length a * Vector3.length a.
Proof.
  unfold Vector3.length. rewrite sqrt_sqrt by apply lengthSq_nonneg. reflexivity.
Qed.

Lemma dot_ge (a b : Vector3) : - (Vector3.length a * Vector3.length b) <= dot a b.
Proof.
  pose proof (dot_le (Vector3.multiplyScalar a (-1)) b) as H.
  rewrite dot_multiplyScalar_l, length_multiplyScalar in H.
  rewrite Rabs_left in H by lra. lra.
Qed.

(** The triangle inequality. *)
Lemma length_add_le (a b : Vector3) :
  Vector3.length (Vector3.add a b) <= Vector3.length a + Vector3.length b.
Proof.
  pose proof (length_nonneg a) as Ha. pose proof (length_nonneg b) as Hb.
  apply sqr_le_le; [lra |].
  replace (Vector3.length (Vector3.add a b) * Vector3.length (Vector3.add a b))
    with (Vector3.lengthSq (Vector3.add a b))
    by (unfold Vector3.length; rewrite sqrt_sqrt by apply lengthSq_nonneg; reflexivity).
  rewrite lengthSq_add. pose proof (dot_le a b) as D.
  assert (Ea : Vector3.lengthSq a = Vector3.length a * Vector3.length a)
    by (unfold Vector3.length; rewrite sqrt_sqrt by apply lengthSq_nonneg; reflexivity).
  assert (Eb : Vector3.lengthSq b = Vector3.length b * Vector3.length b)
    by (unfold Vector3.length; rewrite sqrt_sqrt by apply lengthSq_nonneg; reflexivity).
  rewrite Ea, Eb. nra.
Qed.

Lemma unitVector_of_nothing (v : Vector3) :
  Vector3.length v = 0 -> Vector3.length (unitVector v) = 0.
Proof.
  intros E. unfold unitVector.
  destruct (Req_dec_T (Vector3.length v) 0); [| contradiction].
  rewrite length_multiplyScalar_pos by lra. rewrite E. field.
Qed.

(** A rule gives either nothing or a vector whose length is its weight. *)
Lemma weighted_unit_length (v : Vector3) (weight : R) :
  0 <= weight ->
  Vector3.length (Vector3.multiplyScalar (unitVector v) weight) = 0 \/
  Vector3.length (Vector3.multiplyScalar (unitVector v) weight) = weight.
Proof.
  intros Hw. rewrite length_multiplyScalar_pos by exact Hw.
  destruct (Req_dec_T (Vector3.length v) 0) as [E | N].
  - left. rewrite unitVector_of_nothing by exact E. ring.
  - right. rewrite unitVector_length_one by exact N. ring.
Qed.

Lemma alignmentRule_accumulated (fish : Fish) (neighbors : list Fish) :
  alignmentRule (accumulated fish neighbors) = Some (alignmentClosed fish neighbors).
Proof.
  rewrite alignmentRule_spec. unfold accumulated, alignmentClosed.
  cbn [alignment alignmentCount].
  destruct (filter (aligns fish) neighbors) as [| n near]; [reflexivity |].
  cbn [List.length Nat.ltb Nat.leb]. unfold averageOf. rewrite length_map. reflexivity.
Qed.

Lemma cohesionRule_accumulated (fish : Fish) (neighbors : list Fish) :
  cohesionRule fish (accumulated fish neighbors) = Some (cohesionClosed fish neighbors).
Proof.
  rewrite cohesionRule_spec. unfold accumulated, cohesionClosed.
  cbn [cohesion cohesionCount].
  destruct (filter (coheres fish) neighbors) as [| n near]; [reflexivity |].
  cbn [List.length Nat.ltb Nat.leb]. unfold averageOf. rewrite length_map. reflexivity.
Qed.

(** The four forces in closed form. *)
Lemma boidForces_closed (fish : Fish) (neighbors : list Fish)
    (mousePosition : Mouse.t) (w : Viewport) :
  boidForces fish neighbors mousePosition w =
  Some (mkForces (separationSpec fish neighbors) (alignmentClosed fish neighbors)
          (cohesionClosed fish neighbors)
          (pointerAttractionSpec fish mousePosition w)).
Proof.
  destruct (boidForces_spec fish neighbors mousePosition w) as (s & a & c & Hs & Ha & Hc & E).
  rewrite separationRule_accumulated in Hs. rewrite alignmentRule_accumulated in Ha.
  rewrite cohesionRule_accumulated in Hc.
  injection Hs as <-. injection Ha as <-. injection Hc as <-. exact E.
Qed.

Lemma applyBoidRules_closed (fish : Fish) (neighbors : list Fish)
    (mousePosition : Mouse.t) (w : Viewport) :
  applyBoidRules fish neighbors mousePosition w =
  Some (Vector3.add
          (Vector3.add
             (Vector3.add (separationSpec fish neighbors) (alignmentClosed fish neighbors))
             (cohesionClosed fish neighbors))
          (pointerAttractionSpec fish mousePosition w)).
Proof.
  unfold applyBoidRules. rewrite boidForces_closed. cbn [bind]. rewrite add_zero_l.
  reflexivity.
Qed.

Lemma pointerAttractionSpec_length (fish : Fish) (mousePosition : Mouse.t) (w : Viewport) :
  Vector3.length (pointerAttractionSpec fish mousePosition w) = 0 \/
  Vector3.length (pointerAttractionSpec fish mousePosition w) = 0.3.
Proof.
  unfold pointerAttractionSpec.
  set (target := pointerTarget mousePosition w).
  destruct (ltb _ 200) eqn:E1; cbn [andb]; [| left; apply length_of_zero].
  destruct (gtb _ 0) eqn:E2; [| left; apply length_of_zero].
  apply gtb_true in E2. right.
  assert (L : Vector3.length (Vector3.sub target (position fish))
              = Vector3.distanceTo (position fish) target)
    by (rewrite distanceTo_sym; reflexivity).
  rewrite <- L. rewrite <- unitVector_nonzero by (rewrite L; lra).
  rewrite length_multiplyScalar_pos by lra.
  rewrite unitVector_length_one by (rewrite L; lra). ring.
Qed.

(** X1. The steering force is bounded: each of the four rules contributes
    either the zero vector or a vector whose length is exactly its weight
    (0.5, 0.1, 0.05, 0.3), and the force returned by [applyBoidRules] is
    never longer than 0.95. *)
Theorem steering_force_bounded :
  forall fish neighbors mousePosition w,
  exists f v,
    boidForces fish neighbors mousePosition w = Some f /\
    applyBoidRules fish neighbors mousePosition w = Some v /\
    (Vector3.length (separationForce f) = 0 \/ Vector3.length (separationForce f) = 0.5) /\
    (Vector3.length (alignmentForce f) = 0 \/ Vector3.length (alignmentForce f) = 0.1) /\
    (Vector3.length (cohesionForce f) = 0 \/ Vector3.length (cohesionForce f) = 0.05) /\
    (Vector3.length (mouseAttraction f) = 0 \/ Vector3.length (mouseAttraction f) = 0.3) /\
    Vector3.length v <= 0.95.
Proof.
  intros fish neighbors mp w.
  eexists _, _. split; [apply boidForces_closed |]. split; [apply applyBoidRules_closed |].
  cbn [separationForce alignmentForce cohesionForce mouseAttraction].
  assert (S : Vector3.length (separationSpec fish neighbors) = 0 \/
              Vector3.length (separationSpec fish neighbors) = 0.5).
  { unfold separationSpec. destruct (filter (repels fish) neighbors).
    - left. apply length_of_zero.
    - apply weighted_unit_length. lra. }
  assert (A : Vector3.length (alignmentClosed fish neighbors) = 0 \/
              Vector3.length (alignmentClosed fish neighbors) = 0.1).
  { unfold alignmentClosed. destruct (filter (aligns fish) neighbors).
    - left. apply length_of_zero.
    - apply weighted_unit_length. lra. }
  assert (C : Vector3.length (cohesionClosed fish neighbors) = 0 \/
              Vector3.length (cohesionClosed fish neighbors) = 0.05).
  { unfold cohesionClosed. destruct (filter (coheres fish) neighbors).
    - left. apply length_of_zero.
    - apply weighted_unit_length. lra. }
  pose proof (pointerAttractionSpec_length fish mp w) as M.
  repeat (split; [assumption |]).
  eapply Rle_trans; [apply length_add_le |].
  eapply Rle_trans;
    [apply Rplus_le_compat_r; eapply Rle_trans; [apply length_add_le |];
     apply Rplus_le_compat_r; apply length_add_le |].
  lra.
Qed.

(** X2. The alignment force is 0.1 times the normalized mean velocity of
    the other fish closer than 80, and the cohesion force is 0.05 times the
    normalized vector from the fish to the mean position of the other fish
    closer than 120 (zero when there is none).  Unlike separation, both
    count a fish of another id that is at distance zero. *)
Theorem alignment_cohesion_closed_form :
  (forall fish neighbors mousePosition w,
      exists f,
        boidForces fish neighbors mousePosition w = Some f /\
        alignmentForce f = alignmentClosed fish neighbors /\
        cohesionForce f = cohesionClosed fish neighbors) /\
  (forall fish neighbor,
      (aligns fish neighbor = true <->
       id neighbor <> id fish /\ distance fish neighbor < 80) /\
      (coheres fish neighbor = true <->
       id neighbor <> id fish /\ distance fish neighbor < 120)) /\
  (forall fish neighbor,
      id neighbor <> id fish ->
      distance fish neighbor = 0 ->
      aligns fish neighbor = true /\ coheres fish neighbor = true /\
      repels fish neighbor = false).
Proof.
  split; [| split].
  - intros fish neighbors mp w. eexists. split; [apply boidForces_closed |].
    split; reflexivity.
  - intros fish neighbor. split; [apply aligns_true | apply coheres_true].
  - intros fish neighbor Hid Hd. split; [| split].
    + apply aligns_true. split; [exact Hid | lra].
    + apply coheres_true. split; [exact Hid | lra].
    + apply not_true_false. rewrite repels_true. intros [_ H]. lra.
Qed.

Lemma distance_loneFish_twinFish : distance loneFish twinFish = 0.
Proof.
  unfold distance. rewrite distanceTo_sub. apply length_zero_of_sq. coordinates.
Qed.

Lemma alignment_cohesion_closed_form_sample :
  aligns loneFish twinFish = true /\ coheres loneFish twinFish = true /\
  repels loneFish twinFish = false.
Proof.
  apply (proj2 (proj2 alignment_cohesion_closed_form)).
  - cbn. discriminate.
  - exact distance_loneFish_twinFish.
Defined.

Lemma filter_filter_implied {A : Type} (f g : A -> bool) (l : list A) :
  (forall a, f a = true -> g a = true) -> filter f (filter g l) = filter f l.
Proof.
  intros H. induction l as [| a l IH]; [reflexivity |]. cbn.
  destruct (g a) eqn:G; cbn.
  - rewrite IH. reflexivity.
  - destruct (f a) eqn:F; [| exact IH]. rewrite (H a F) in G. discriminate G.
Qed.

Lemma repels_isOther (fish n : Fish) : repels fish n = true -> isOther fish n = true.
Proof. unfold repels. rewrite !andb_true_iff. intros [[H _] _]. exact H. Qed.

Lemma aligns_isOther (fish n : Fish) : aligns fish n = true -> isOther fish n = true.
Proof. unfold aligns. rewrite andb_true_iff. intros [H _]. exact H. Qed.

Lemma coheres_isOther (fish n : Fish) : coheres fish n = true -> isOther fish n = true.
Proof. unfold coheres. rewrite andb_true_iff. intros [H _]. exact H. Qed.

Lemma repels_coheres (fish n : Fish) : repels fish n = true -> coheres fish n = true.
Proof.
  rewrite repels_true, coheres_true. intros [H1 H2]. split; [exact H1 | lra].
Qed.

Lemma aligns_coheres (fish n : Fish) : aligns fish n = true -> coheres fish n = true.
Proof.
  rewrite aligns_true, coheres_true. intros [H1 H2]. split; [exact H1 | lra].
Qed.

Lemma accumulated_others (fish : Fish) (neighbors : list Fish) :
  accumulated fish (filter (isOther fish) neighbors) = accumulated fish neighbors.
Proof.
  unfold accumulated.
  rewrite (filter_filter_implied (repels fish)) by apply repels_isOther.
  rewrite (filter_filter_implied (aligns fish)) by apply aligns_isOther.
  rewrite (filter_filter_implied (coheres fish)) by apply coheres_isOther.
  reflexivity.
Qed.

Lemma applyBoidRules_accumulated (fish : Fish) (neighbors : list Fish)
    (mousePosition : Mouse.t) (w : Viewport) :
  applyBoidRules fish neighbors mousePosition w =
  (f <- (m <- mouseAttractionRule fish mousePosition w ;;
         s <- separationRule (accumulated fish neighbors) ;;
         a <- alignmentRule (accumulated fish neighbors) ;;
         c <- cohesionRule fish (accumulated fish neighbors) ;;
         Some (mkForces s a c m)) ;;
   Some (Vector3.add
           (Vector3.add
              (Vector3.add (Vector3.add Vector3.zero (separationForce f))
                 (alignmentForce f))
              (cohesionForce f))
           (mouseAttraction f))).
Proof.
  unfold applyBoidRules, boidForces. rewrite forEachNeighbor_accumulated. reflexivity.
Qed.

(** X3. A fish is never steered by itself nor by any fish carrying its id:
    removing them from the array does not change the force.  And of the fish
    itself only the id and the position enter the force: its own velocity,
    mesh and color do not. *)
Theorem own_id_and_velocity_ignored :
  (forall fish neighbors mousePosition w,
      applyBoidRules fish neighbors mousePosition w
      = applyBoidRules fish (filter (isOther fish) neighbors) mousePosition w) /\
  (forall i p v m c v' m' c' neighbors mousePosition w,
      applyBoidRules (mkFish i p v m c) neighbors mousePosition w
      = applyBoidRules (mkFish i p v' m' c') neighbors mousePosition w).
Proof.
  split.
  - intros fish neighbors mp w.
    rewrite !applyBoidRules_accumulated, accumulated_others. reflexivity.
  - intros i p v m c v' m' c' neighbors mp w.
    assert (V : forall acc n,
               visitNeighbor (mkFish i p v m c) acc n
               = visitNeighbor (mkFish i p v' m' c') acc n) by reflexivity.
    assert (F : forall ns acc,
               forEachNeighbor (mkFish i p v m c) ns acc
               = forEachNeighbor (mkFish i p v' m' c') ns acc).
    { induction ns as [| n ns IH]; intros acc; [reflexivity |].
      cbn [forEachNeighbor]. rewrite V.
      destruct (visitNeighbor (mkFish i p v' m' c') acc n); [apply IH | reflexivity]. }
    unfold applyBoidRules, boidForces. rewrite F. reflexivity.
Qed.

(** ** Two fish close to each other *)

Lemma length_zero_inv (v : Vector3) : Vector3.length v = 0 -> v = Vector3.zero.
Proof.
  intros H. unfold Vector3.length in H. apply sqrt_eq_0 in H; [| apply lengthSq_nonneg].
  unfold Vector3.lengthSq in H. destruct v as [a b c]. cbn in H.
  assert (a = 0) by nra. assert (b = 0) by nra. assert (c = 0) by nra.
  subst. reflexivity.
Qed.

Lemma unitVector_of_unit (u : Vector3) : Vector3.length u = 1 -> unitVector u = u.
Proof.
  intros H. rewrite unitVector_nonzero by lra. rewrite H.
  apply vector_eq; cbn; field.
Qed.

Lemma unitVector_scaled (v : Vector3) (c : R) :
  0 < c -> unitVector (Vector3.multiplyScalar v c) = unitVector v.
Proof.
  intros Hc. destruct (Req_dec_T (Vector3.length v) 0) as [E | N].
  - apply length_zero_inv in E. subst v.
    replace (Vector3.multiplyScalar Vector3.zero c) with Vector3.zero
      by (apply vector_eq; cbn; ring).
    reflexivity.
  - pose proof (length_nonneg v) as Hv.
    assert (L : Vector3.length (Vector3.multiplyScalar v c) = c * Vector3.length v)
      by (apply length_multiplyScalar_pos; lra).
    rewrite (unitVector_nonzero (Vector3.multiplyScalar v c)) by (rewrite L; nra).
    rewrite (unitVector_nonzero v) by exact N.
    rewrite L, multiplyScalar_twice. f_equal. field. split; [exact N | lra].
Qed.

Lemma unitVector_opposite (a b : Vector3) :
  unitVector (Vector3.sub b a) = Vector3.multiplyScalar (unitVector (Vector3.sub a b)) (-1).
Proof.
  assert (L : Vector3.length (Vector3.sub b a) = Vector3.length (Vector3.sub a b))
    by (rewrite <- !distanceTo_sub; apply distanceTo_sym).
  unfold unitVector. rewrite L.
  apply vector_eq; cbn; ring.
Qed.

Lemma averageOf_one (v : Vector3) : averageOf [v] = v.
Proof. unfold averageOf, sumOf. cbn. apply vector_eq; cbn; field. Qed.

Lemma dot_weighted_unit_ge (x u : Vector3) (weight : R) :
  0 <= weight -> Vector3.length u = 1 ->
  - weight <= dot (Vector3.multiplyScalar (unitVector x) weight) u.
Proof.
  intros Hw Hu. rewrite dot_multiplyScalar_l.
  pose proof (dot_ge (unitVector x) u) as D. rewrite Hu in D.
  destruct (Req_dec_T (Vector3.length x) 0) as [E | N].
  - rewrite (unitVector_of_nothing x E) in D. nra.
  - rewrite (unitVector_length_one x N) in D. nra.
Qed.

(** X4. Two fish closer than 50 are driven apart.  When the only other fish
    within 120 of a fish is at a distance below 50 (and above 0), the
    steering force has a component of at least 0.05 along the direction that
    points from the neighbor to the fish, whatever the velocity of the
    neighbor and wherever the pointer is. *)
Theorem close_pair_driven_apart :
  forall fish neighbor neighbors mousePosition w,
    filter (coheres fish) neighbors = [neighbor] ->
    0 < distance fish neighbor < 50 ->
    exists v,
      applyBoidRules fish neighbors mousePosition w = Some v /\
      Vector3.length (unitVector (Vector3.sub (position fish) (position neighbor))) = 1 /\
      0.05 <= dot v (unitVector (Vector3.sub (position fish) (position neighbor))).
Proof.
  intros fish n ns mp w Hone Hd.
  set (u := unitVector (Vector3.sub (position fish) (position n))).
  assert (Lu : Vector3.length u = 1).
  { apply unitVector_length_one.
    change (Vector3.length (Vector3.sub (position fish) (position n)))
      with (distance fish n). lra. }
  assert (Hc : coheres fish n = true).
  { assert (I : In n (filter (coheres fish) ns)) by (rewrite Hone; left; reflexivity).
    apply filter_In in I. apply I. }
  assert (Hid : id n <> id fish) by (apply coheres_true in Hc; apply Hc).
  assert (Hr : repels fish n = true) by (apply repels_true; split; [exact Hid | lra]).
  assert (Ha : aligns fish n = true) by (apply aligns_true; split; [exact Hid | lra]).
  assert (Fr : filter (repels fish) ns = [n]).
  { rewrite <- (filter_filter_implied (repels fish) (coheres fish))
      by apply repels_coheres.
    rewrite Hone. cbn. rewrite Hr. reflexivity. }
  assert (Fa : filter (aligns fish) ns = [n]).
  { rewrite <- (filter_filter_implied (aligns fish) (coheres fish))
      by apply aligns_coheres.
    rewrite Hone. cbn. rewrite Ha. reflexivity. }
  eexists. split; [apply applyBoidRules_closed |]. split; [exact Lu |].
  rewrite !dot_add_l.
  assert (S : dot (separationSpec fish ns) u = 0.5).
  { unfold separationSpec. rewrite Fr. cbn [map]. rewrite averageOf_one.
    unfold awayFrom. fold u.
    rewrite unitVector_scaled
      by (unfold Rdiv; rewrite Rmult_1_l; apply Rinv_0_lt_compat; lra).
    rewrite unitVector_of_unit by exact Lu.
    rewrite dot_multiplyScalar_l, dot_self, Lu. lra. }
  assert (C : dot (cohesionClosed fish ns) u = -0.05).
  { unfold cohesionClosed. rewrite Hone. cbn [map]. rewrite averageOf_one.
    rewrite unitVector_opposite. fold u.
    rewrite !dot_multiplyScalar_l, dot_self, Lu. lra. }
  assert (A : -0.1 <= dot (alignmentClosed fish ns) u).
  { unfold alignmentClosed. rewrite Fa.
    pose proof (dot_weighted_unit_ge (averageOf (map velocity [n])) u 0.1
                  ltac:(lra) Lu) as D.
    lra. }
  assert (M : -0.3 <= dot (pointerAttractionSpec fish mp w) u).
  { pose proof (dot_ge (pointerAttractionSpec fish mp w) u) as D. rewrite Lu in D.
    destruct (pointerAttractionSpec_length fish mp w) as [E | E]; rewrite E in D; lra. }
  lra.
Qed.

Lemma close_pair_driven_apart_sample :
  exists v,
    applyBoidRules loneFish [loneFish; nearFish; farFish] mouseNear smallWindow = Some v /\
    Vector3.length (unitVector (Vector3.sub (position loneFish) (position nearFish))) = 1 /\
    0.05 <= dot v (unitVector (Vector3.sub (position loneFish) (position nearFish))).
Proof.
  apply close_pair_driven_apart.
  - pose proof distance_loneFish_nearFish as Near.
    pose proof distance_loneFish_farFish as Far.
    cbn [filter].
    assert (C1 : coheres loneFish loneFish = false) by reflexivity.
    assert (C2 : coheres loneFish nearFish = true)
      by (apply coheres_true; split; [cbn; discriminate | lra]).
    assert (C3 : coheres loneFish farFish = false)
      by (apply not_true_false; rewrite coheres_true; intros [_ H]; lra).
    rewrite C1, C2, C3. reflexivity.
  - exact distance_loneFish_nearFish.
Defined.

(** * Beyond the specification: more of the per-frame step *)

(** X5. The speed limit keeps the direction: [limitSpeed] returns the
    velocity multiplied by a factor between 0 and 1; a velocity above the
    limit comes out with exactly the limit as its length, a velocity within
    the limit comes out unchanged. *)
Theorem limitSpeed_keeps_direction :
  forall maxSpeed v,
    0 <= maxSpeed ->
    exists v' c,
      limitSpeed maxSpeed v = Some v' /\
      v' = Vector3.multiplyScalar v c /\ 0 <= c <= 1 /\
      (Vector3.length v > maxSpeed -> Vector3.length v' = maxSpeed) /\
      (Vector3.length v <= maxSpeed -> v' = v).
Proof.
  intros maxSpeed v Hm. rewrite limitSpeed_spec.
  destruct (gtb (Vector3.length v) maxSpeed) eqn:E.
  - apply gtb_true in E.
    exists (Vector3.multiplyScalar (unitVector v) maxSpeed), (1 / Vector3.length v * maxSpeed).
    split; [reflexivity |]. split; [| split; [| split]].
    + rewrite unitVector_nonzero by lra. apply multiplyScalar_twice.
    + assert (0 < / Vector3.length v) by (apply Rinv_0_lt_compat; lra).
      unfold Rdiv. rewrite Rmult_1_l. split; [nra |].
      apply (Rmult_le_reg_l (Vector3.length v)); [lra |].
      rewrite <- Rmult_assoc, Rinv_r by lra. lra.
    + intros _. rewrite length_multiplyScalar_pos by exact Hm.
      rewrite unitVector_length_one by lra. ring.
    + intros H. lra.
  - apply gtb_false in E. exists v, 1.
    split; [reflexivity |]. split; [| split; [| split]].
    + apply vector_eq; cbn; ring.
    + lra.
    + intros H. lra.
    + intros _. reflexivity.
Qed.

Lemma limitSpeed_keeps_direction_sample :
  exists v' c,
    limitSpeed 5 (Vector3.mk 100 0 0) = Some v' /\
    v' = Vector3.multiplyScalar (Vector3.mk 100 0 0) c /\ 0 <= c <= 1 /\
    Vector3.length v' = 5.
Proof.
  destruct (limitSpeed_keeps_direction 5 (Vector3.mk 100 0 0)) as (v' & c & E & D & C & Above & _).
  - lra.
  - exists v', c. repeat (split; [assumption |]).
    apply Above. rewrite length_along_x_pos; lra.
Defined.

Lemma Forall2_map_eq {A B : Type} (g : A -> B) (l l' : list A) :
  Forall2 (fun a a' => g a' = g a) l l' -> map g l' = map g l.
Proof. induction 1 as [| a a' l l' H _ IH]; cbn; [reflexivity | rewrite H, IH; reflexivity]. Qed.

Lemma Forall2_impl {A B : Type} (P Q : A -> B -> Prop) (l : list A) (l' : list B) :
  (forall a b, P a b -> Q a b) -> Forall2 P l l' -> Forall2 Q l l'.
Proof. intros H. induction 1; constructor; auto. Qed.

(** X6. The per-frame step keeps the flock: the array comes out with the
    same length, the same ids and the same colors in the same order, and a
    fish has a mesh afterwards exactly when it had one before.  So ids that
    are distinct stay distinct. *)
Theorem step_keeps_the_flock :
  (forall fishes mousePosition w rnd,
      exists fishes' rnd',
        updateFishAnimation fishes mousePosition w rnd = Some (fishes', rnd') /\
        List.length fishes' = List.length fishes /\
        map id fishes' = map id fishes /\
        map color fishes' = map color fishes /\
        Forall2 (fun fish fish' => mesh fish = None <-> mesh fish' = None) fishes fishes') /\
  (forall fishes mousePosition w rnd,
      exists fishes' rnd',
        animateFishes fishes mousePosition w rnd = Some (fishes', rnd') /\
        List.length fishes' = List.length fishes /\
        map id fishes' = map id fishes /\
        map color fishes' = map color fishes /\
        Forall2 (fun fish fish' => mesh fish = None <-> mesh fish' = None) fishes fishes').
Proof.
  assert (Loop : forall maxSpeed damping fishes mousePosition w rnd,
      0 <= maxSpeed -> 0 <= damping ->
      exists fishes' rnd',
        forEachFish maxSpeed damping w mousePosition [] fishes rnd = Some (fishes', rnd') /\
        List.length fishes' = List.length fishes /\
        map id fishes' = map id fishes /\
        map color fishes' = map color fishes /\
        Forall2 (fun fish fish' => mesh fish = None <-> mesh fish' = None) fishes fishes').
  { intros maxSpeed damping fishes mp w rnd Hm Hd.
    destruct (forEachFish_afterStep maxSpeed damping w mp
                (fun fish fish' =>
                   id fish' = id fish /\ color fish' = color fish /\ mesh fish' <> None)
                (fun fs f m r0 r H =>
                   proj2 (proj2 (updateFish_bounds _ _ _ _ _ _ _ _ _ Hm Hd H)))
                fishes [] rnd) as (fishes' & rnd' & E & F).
    exists fishes', rnd'. split; [exact E |].
    split; [symmetry; eapply Forall2_length; exact F |].
    split; [| split].
    - apply Forall2_map_eq. revert F. apply Forall2_impl.
      intros f f'. unfold afterStep. destruct (mesh f); [intros H; apply H | intros ->; reflexivity].
    - apply Forall2_map_eq. revert F. apply Forall2_impl.
      intros f f'. unfold afterStep. destruct (mesh f); [intros H; apply H | intros ->; reflexivity].
    - revert F. apply Forall2_impl.
      intros f f'. unfold afterStep. destruct (mesh f) eqn:Em.
      + intros (_ & _ & H). split; [discriminate | contradiction].
      + intros ->. rewrite Em. split; reflexivity. }
  split; intros fishes mp w rnd.
  - apply Loop; lra.
  - apply Loop; lra.
Qed.

Lemma orient_value (m : Motion) (old : Mesh) :
  orient m old =
  Some (mkMesh (at_ m)
          (if gtb (Vector3.length (speed m)) 0.01
           then LookAtRotateY (Vector3.add (at_ m) (unitVector (speed m)))
           else meshOrientation old)).
Proof.
  unfold orient. destruct (gtb _ _); [| reflexivity]. step_bind. reflexivity.
Qed.

Lemma integrate_at (maxSpeed damping : R) (fish : Fish) (boidForce noise : Vector3)
    (moved : Motion) :
  integrate maxSpeed damping fish boidForce noise = Some moved ->
  at_ moved = Vector3.add (position fish) (speed moved).
Proof.
  intros H.
  destruct (integrate_spec maxSpeed damping fish boidForce noise) as (v & _ & E).
  rewrite E in H. injection H as <-. reflexivity.
Qed.

(** The result of one update, mesh included. *)
Lemma updateFish_value (maxSpeed damping : R) (w : Viewport) (mousePosition : Mouse.t)
    (fishes : list Fish) (fish : Fish) (m : Mesh) (rnd : Random) :
  exists boidForce moved,
    applyBoidRules fish fishes mousePosition w = Some boidForce /\
    integrate maxSpeed damping fish boidForce (fst (jitter rnd)) = Some moved /\
    updateFish maxSpeed damping w mousePosition fishes fish m rnd =
    Some (mkFish (id fish) (at_ (bounce w moved)) (speed (bounce w moved))
            (Some (mkMesh (at_ (bounce w moved))
                     (if gtb (Vector3.length (speed (bounce w moved))) 0.01
                      then LookAtRotateY
                             (Vector3.add (at_ (bounce w moved))
                                (unitVector (speed (bounce w moved))))
                      else meshOrientation m)))
            (color fish),
          snd (jitter rnd)).
Proof.
  destruct (updateFish_spec maxSpeed damping w mousePosition fishes fish m rnd)
    as (bf & mv & o & EF & EI & E).
  exists bf, mv. split; [exact EF |]. split; [exact EI |].
  unfold updateFish in *. rewrite EF in *. cbn [bind] in *.
  destruct (jitter rnd) as [noise rnd']. cbn [fst snd] in *.
  rewrite EI in *. cbn [bind] in *. rewrite orient_value. reflexivity.
Qed.

Section ForEachFishWithMesh.

Variables (maxSpeed damping : R) (w : Viewport) (mousePosition : Mouse.t).

(** As [forEachFish_afterStep], for a property that also speaks of the mesh
    the fish had. *)
Lemma forEachFish_afterStep_mesh (Q : Fish -> Fish -> Prop) :
  (forall fishes fish m rnd r,
      mesh fish = Some m ->
      updateFish maxSpeed damping w mousePosition fishes fish m rnd = Some r ->
      Q fish (fst r)) ->
  forall rest updated rnd,
  exists res rnd',
    forEachFish maxSpeed damping w mousePosition updated rest rnd
    = Some (updated ++ res, rnd') /\
    Forall2 (afterStep Q) rest res.
Proof.
  intros HQ. induction rest as [| fish rest IH]; intros updated rnd.
  - exists [], rnd. cbn. rewrite app_nil_r. split; [reflexivity | constructor].
  - cbn [forEachFish]. destruct (mesh fish) as [m |] eqn:Em.
    + destruct (updateFish_spec maxSpeed damping w mousePosition
                  (updated ++ fish :: rest) fish m rnd) as (bf & mv & o & _ & _ & E).
      rewrite E. cbn [bind fst snd].
      match goal with
      | |- context [forEachFish _ _ _ _ (updated ++ [?f']) rest ?rnd1] =>
          destruct (IH (updated ++ [f']) rnd1) as (res & rnd' & ER & HF);
          exists (f' :: res), rnd'
      end.
      split.
      * rewrite ER, <- app_assoc. reflexivity.
      * constructor; [| exact HF].
        unfold afterStep. rewrite Em. apply (HQ _ _ _ _ _ Em E).
    + destruct (IH (updated ++ [fish]) rnd) as (res & rnd' & ER & HF).
      exists (fish :: res), rnd'. split.
      * rewrite ER, <- app_assoc. reflexivity.
      * constructor; [| exact HF]. unfold afterStep. rewrite Em. reflexivity.
Qed.

End ForEachFishWithMesh.

Lemma sub_add_cancel (p u : Vector3) : Vector3.sub (Vector3.add p u) p = u.
Proof. apply vector_eq; cbn; ring. Qed.

(** X7. After the step the mesh of every updated fish is at the position of
    the fish.  If the fish is faster than 0.01 its mesh looks at the point
    one unit ahead of it along its velocity; otherwise the orientation of the
    mesh is the one it had before the step. *)
Theorem mesh_follows_the_fish :
  forall fishes mousePosition w rnd,
  exists fishes' rnd',
    updateFishAnimation fishes mousePosition w rnd = Some (fishes', rnd') /\
    Forall2
      (afterStep
         (fun fish fish' =>
            exists m m',
              mesh fish = Some m /\ mesh fish' = Some m' /\
              meshPosition m' = position fish' /\
              (Vector3.length (velocity fish') > 0.01 ->
               exists target,
                 meshOrientation m' = LookAtRotateY target /\
                 Vector3.sub target (position fish') = unitVector (velocity fish') /\
                 Vector3.distanceTo target (position fish') = 1) /\
              (Vector3.length (velocity fish') <= 0.01 ->
               meshOrientation m' = meshOrientation m)))
      fishes fishes'.
Proof.
  intros fishes mp w rnd. unfold updateFishAnimation.
  apply forEachFish_afterStep_mesh.
  intros fs fish m r0 r Em H.
  destruct (updateFish_value 5 0.98 w mp fs fish m r0) as (bf & mv & _ & _ & E).
  rewrite E in H. injection H as <-. cbn [fst mesh position velocity].
  eexists m, _. split; [exact Em |]. split; [reflexivity |].
  cbn [meshPosition meshOrientation]. split; [reflexivity |]. split.
  - intros Fast. apply gtb_true in Fast. rewrite Fast.
    eexists. split; [reflexivity |]. split; [apply sub_add_cancel |].
    rewrite distanceTo_sub, sub_add_cancel.
    apply unitVector_length_one. apply gtb_true in Fast. lra.
  - intros Slow. apply gtb_false in Slow. rewrite Slow. reflexivity.
Qed.

Lemma mesh_follows_the_fish_sample :
  exists fishes' rnd',
    updateFishAnimation [loneFish] mouseFar smallWindow steady = Some (fishes', rnd') /\
    Forall2
      (fun fish fish' =>
         exists m m',
           mesh fish = Some m /\ mesh fish' = Some m' /\
           meshPosition m' = position fish' /\
           (Vector3.length (velocity fish') > 0.01 ->
            exists target,
              meshOrientation m' = LookAtRotateY target /\
              Vector3.sub target (position fish') = unitVector (velocity fish') /\
              Vector3.distanceTo target (position fish') = 1) /\
           (Vector3.length (velocity fish') <= 0.01 ->
            meshOrientation m' = meshOrientation m))
      [loneFish] fishes'.
Proof.
  destruct (mesh_follows_the_fish [loneFish] mouseFar smallWindow steady)
    as (fishes' & rnd' & E & F).
  exists fishes', rnd'. split; [exact E |].
  inversion F as [| f f' l l' H T]; subst. constructor; [exact H |].
  inversion T. constructor.
Defined.

Lemma bounceAxis_near (bound p v v0 : R) :
  0 <= bound -> - bound <= p <= bound ->
  (fst (bounceAxis bound (p + v) v0) - p) * (fst (bounceAxis bound (p + v) v0) - p)
  <= v * v.
Proof.
  intros Hb Hp. unfold bounceAxis.
  destruct (outside bound (p + v)) eqn:E; cbn [fst].
  - apply outside_true in E. destruct E as [E | E].
    + rewrite clamp_below by assumption. nra.
    + rewrite clamp_above by assumption. nra.
  - replace (p + v - p) with v by ring. lra.
Qed.

Lemma bounce_near (w : Viewport) (p v : Vector3) :
  inBounds w p ->
  Vector3.distanceTo (at_ (bounce w (mkMotion (Vector3.add p v) v))) p
  <= Vector3.length v.
Proof.
  intros (Hx & Hy & Hz). rewrite distanceTo_sub. apply length_le_of_lengthSq.
  rewrite bounce_components. unfold Vector3.lengthSq.
  cbn [at_ speed Vector3.sub Vector3.add Vector3.x Vector3.y Vector3.z].
  pose proof (bounceAxis_near (halfWidth w) (Vector3.x p) (Vector3.x v) (Vector3.x v)
                (halfWidth_nonneg w) Hx).
  pose proof (bounceAxis_near (halfHeight w) (Vector3.y p) (Vector3.y v) (Vector3.y v)
                (halfHeight_nonneg w) Hy).
  pose proof (bounceAxis_near 100 (Vector3.z p) (Vector3.z v) (Vector3.z v)
                ltac:(lra) Hz).
  lra.
Qed.

Lemma updateFish_near (maxSpeed damping : R) (w : Viewport) (mousePosition : Mouse.t)
    (fishes : list Fish) (fish : Fish) (m : Mesh) (rnd : Random) (r : Fish * Random) :
  0 <= maxSpeed -> 0 <= damping ->
  updateFish maxSpeed damping w mousePosition fishes fish m rnd = Some r ->
  inBounds w (position fish) ->
  Vector3.distanceTo (position (fst r)) (position fish) <= damping * maxSpeed.
Proof.
  intros Hm Hd H Hin.
  destruct (updateFish_spec maxSpeed damping w mousePosition fishes fish m rnd)
    as (bf & mv & o & _ & EI & E).
  rewrite E in H. injection H as <-. cbn [fst position].
  pose proof (integrate_at _ _ _ _ _ _ EI) as At.
  pose proof (integrate_bound _ _ _ _ _ _ Hm Hd EI) as Bound.
  destruct mv as [p' v']. cbn [at_ speed] in *. subst p'.
  eapply Rle_trans; [apply bounce_near; exact Hin | exact Bound].
Qed.

(** X8. No fish jumps: a fish that is inside the bounds of the window when
    the step starts ends the step at a distance of at most damping times
    maxSpeed from where it was, that is 4.9 in [updateFishAnimation] and 2.97
    in the loop of [animate]. *)
Theorem fish_moves_at_most_damped_maxSpeed :
  (forall w mousePosition fishes fish m rnd,
      inBounds w (position fish) ->
      exists r,
        updateFish 5 0.98 w mousePosition fishes fish m rnd = Some r /\
        Vector3.distanceTo (position (fst r)) (position fish) <= 4.9) /\
  (forall w mousePosition fishes fish m rnd,
      inBounds w (position fish) ->
      exists r,
        updateFish 3 0.99 w mousePosition fishes fish m rnd = Some r /\
        Vector3.distanceTo (position (fst r)) (position fish) <= 2.97) /\
  (forall fishes mousePosition w rnd,
      exists fishes' rnd',
        updateFishAnimation fishes mousePosition w rnd = Some (fishes', rnd') /\
        Forall2
          (afterStep
             (fun fish fish' =>
                inBounds w (position fish) ->
                Vector3.distanceTo (position fish') (position fish) <= 4.9))
          fishes fishes') /\
  (forall fishes mousePosition w rnd,
      exists fishes' rnd',
        animateFishes fishes mousePosition w rnd = Some (fishes', rnd') /\
        Forall2
          (afterStep
             (fun fish fish' =>
                inBounds w (position fish) ->
                Vector3.distanceTo (position fish') (position fish) <= 2.97))
          fishes fishes').
Proof.
  split; [| split; [| split]].
  - intros w mp fishes fish m rnd Hin.
    destruct (updateFish_spec 5 0.98 w mp fishes fish m rnd) as (? & ? & ? & _ & _ & E).
    eexists. split; [exact E |].
    pose proof (updateFish_near 5 0.98 _ _ _ _ _ _ _ ltac:(lra) ltac:(lra) E Hin). lra.
  - intros w mp fishes fish m rnd Hin.
    destruct (updateFish_spec 3 0.99 w mp fishes fish m rnd) as (? & ? & ? & _ & _ & E).
    eexists. split; [exact E |].
    pose proof (updateFish_near 3 0.99 _ _ _ _ _ _ _ ltac:(lra) ltac:(lra) E Hin). lra.
  - intros fishes mp w rnd. unfold updateFishAnimation.
    apply forEachFish_afterStep. intros fs f m r0 r H Hin.
    pose proof (updateFish_near 5 0.98 _ _ _ _ _ _ _ ltac:(lra) ltac:(lra) H Hin). lra.
  - intros fishes mp w rnd. unfold animateFishes.
    apply forEachFish_afterStep. intros fs f m r0 r H Hin.
    pose proof (updateFish_near 3 0.99 _ _ _ _ _ _ _ ltac:(lra) ltac:(lra) H Hin). lra.
Qed.

Lemma loneFish_inBounds : inBounds smallWindow (position loneFish).
Proof.
  unfold inBounds. rewrite halfWidth_smallWindow, halfHeight_smallWindow. cbn. lra.
Qed.

Lemma fish_moves_at_most_damped_maxSpeed_sample :
  (exists r,
      updateFish 5 0.98 smallWindow mouseFar [loneFish] loneFish someMesh steady = Some r /\
      Vector3.distanceTo (position (fst r)) (position loneFish) <= 4.9) /\
  (exists r,
      updateFish 3 0.99 smallWindow mouseFar [loneFish] loneFish someMesh steady = Some r /\
      Vector3.distanceTo (position (fst r)) (position loneFish) <= 2.97).
Proof.
  split.
  - apply (proj1 fish_moves_at_most_damped_maxSpeed). exact loneFish_inBounds.
  - apply (proj1 (proj2 fish_moves_at_most_damped_maxSpeed)). exact loneFish_inBounds.
Defined.

(** X9. With a fixed window a bounce always sends the fish back inside: when
    a fish that starts the step within the bounds crosses an edge, it ends
    the step on that edge and its velocity component on that axis points into
    the box. *)
Theorem bounce_turns_inwards :
  forall maxSpeed damping w mousePosition fishes fish m rnd,
    inBounds w (position fish) ->
    exists boidForce moved r,
      applyBoidRules fish fishes mousePosition w = Some boidForce /\
      integrate maxSpeed damping fish boidForce (fst (jitter rnd)) = Some moved /\
      updateFish maxSpeed damping w mousePosition fishes fish m rnd = Some r /\
      (Vector3.x (at_ moved) > halfWidth w ->
       Vector3.x (position (fst r)) = halfWidth w /\ Vector3.x (velocity (fst r)) < 0) /\
      (Vector3.x (at_ moved) < - halfWidth w ->
       Vector3.x (position (fst r)) = - halfWidth w /\ Vector3.x (velocity (fst r)) > 0) /\
      (Vector3.y (at_ moved) > halfHeight w ->
       Vector3.y (position (fst r)) = halfHeight w /\ Vector3.y (velocity (fst r)) < 0) /\
      (Vector3.y (at_ moved) < - halfHeight w ->
       Vector3.y (position (fst r)) = - halfHeight w /\ Vector3.y (velocity (fst r)) > 0) /\
      (Vector3.z (at_ moved) > 100 ->
       Vector3.z (position (fst r)) = 100 /\ Vector3.z (velocity (fst r)) < 0) /\
      (Vector3.z (at_ moved) < - 100 ->
       Vector3.z (position (fst r)) = - 100 /\ Vector3.z (velocity (fst r)) > 0).
Proof.
  intros maxSpeed damping w mp fishes fish m rnd (Hx & Hy & Hz).
  destruct (updateFish_spec maxSpeed damping w mp fishes fish m rnd)
    as (bf & mv & o & EF & EI & E).
  exists bf, mv. eexists. split; [exact EF |]. split; [exact EI |]. split; [exact E |].
  cbn [fst position velocity].
  pose proof (integrate_at _ _ _ _ _ _ EI) as At.
  destruct mv as [p v]. cbn [at_ speed] in *. subst p.
  rewrite bounce_components. cbn [at_ speed Vector3.add Vector3.x Vector3.y Vector3.z].
  pose proof (halfWidth_nonneg w) as Hw. pose proof (halfHeight_nonneg w) as Hh.
  pose proof (bounceAxis_reflected (halfWidth w)
                (Vector3.x (position fish) + Vector3.x v) (Vector3.x v) Hw)
    as (Xa & Xb & _).
  pose proof (bounceAxis_reflected (halfHeight w)
                (Vector3.y (position fish) + Vector3.y v) (Vector3.y v) Hh)
    as (Ya & Yb & _).
  pose proof (bounceAxis_reflected 100
                (Vector3.z (position fish) + Vector3.z v) (Vector3.z v) ltac:(lra))
    as (Za & Zb & _).
  split; [| split; [| split; [| split; [| split]]]]; intros H;
    first [ destruct (Xa H) as [-> ->] | destruct (Xb H) as [-> ->]
          | destruct (Ya H) as [-> ->] | destruct (Yb H) as [-> ->]
          | destruct (Za H) as [-> ->] | destruct (Zb H) as [-> ->] ];
    (split; [reflexivity | lra]).
Qed.

Lemma edgeFish_inBounds : inBounds smallWindow (position edgeFish).
Proof.
  unfold inBounds. rewrite halfWidth_smallWindow, halfHeight_smallWindow. cbn. lra.
Qed.

Lemma bounce_turns_inwards_sample :
  exists boidForce moved r,
    applyBoidRules edgeFish [edgeFish] mouseFar smallWindow = Some boidForce /\
    integrate 5 0.98 edgeFish boidForce (fst (jitter steady)) = Some moved /\
    updateFish 5 0.98 smallWindow mouseFar [edgeFish] edgeFish someMesh steady = Some r /\
    (Vector3.x (at_ moved) > halfWidth smallWindow ->
     Vector3.x (position (fst r)) = halfWidth smallWindow /\
     Vector3.x (velocity (fst r)) < 0).
Proof.
  destruct (bounce_turns_inwards 5 0.98 smallWindow mouseFar [edgeFish] edgeFish someMesh
              steady edgeFish_inBounds)
    as (bf & mv & r & EF & EI & E & X & _).
  exists bf, mv, r. repeat (split; [assumption |]). exact X.
Defined.

Lemma bounceAxis_again (bound p v : R) :
  0 <= bound ->
  bounceAxis bound (fst (bounceAxis bound p v)) (snd (bounceAxis bound p v))
  = bounceAxis bound p v.
Proof.
  intros Hb. pose proof (bounceAxis_inside bound p v Hb) as H.
  apply outside_false in H. unfold bounceAxis at 1. rewrite H.
  destruct (bounceAxis bound p v). reflexivity.
Qed.

(** X10. The boundary handling does its work once: applied to its own
    result it changes nothing, and a fish that is within the bounds after it
    has moved keeps its position and its velocity.  No energy is lost except
    at a crossing. *)
Theorem bounce_once :
  (forall w m, bounce w (bounce w m) = bounce w m) /\
  (forall w m, inBounds w (at_ m) -> bounce w m = m).
Proof.
  split.
  - intros w m. rewrite (bounce_components w (bounce w m)).
    rewrite (bounce_components w m) at 7.
    rewrite (bounce_components w m). cbn [at_ speed Vector3.x Vector3.y Vector3.z].
    rewrite !bounceAxis_again;
      first [reflexivity | apply halfWidth_nonneg | apply halfHeight_nonneg | lra].
  - intros w m (Hx & Hy & Hz). rewrite bounce_components. unfold bounceAxis.
    apply outside_false in Hx. apply outside_false in Hy. apply outside_false in Hz.
    rewrite Hx, Hy, Hz. destruct m as [[px py pz] [vx vy vz]]. reflexivity.
Qed.

Lemma bounce_once_sample :
  bounce smallWindow (mkMotion (Vector3.mk 10 0 0) (Vector3.mk 2 0 0))
  = mkMotion (Vector3.mk 10 0 0) (Vector3.mk 2 0 0).
Proof.
  apply (proj2 bounce_once).
  unfold inBounds. rewrite halfWidth_smallWindow, halfHeight_smallWindow. cbn. lra.
Defined.

(** * Beyond the specification: setting up the flock and the stars *)

Lemma inUnitInterval_random (rnd : Random) :
  inUnitInterval rnd ->
  0 <= fst (random rnd) < 1 /\ inUnitInterval (snd (random rnd)).
Proof. intros H. split; [apply H | intros n; apply H]. Qed.

Lemma inUnitInterval_steady : inUnitInterval steady.
Proof. intros n. unfold steady. lra. Qed.

Section ArrayFrom.

Context {A : Type}.
Variable f : nat -> Random -> A * Random.
Hypothesis f_random :
  forall i rnd, inUnitInterval rnd -> inUnitInterval (snd (f i rnd)).

Lemma arrayFrom_length (n : nat) :
  forall i rnd, List.length (fst (arrayFrom n i f rnd)) = n.
Proof.
  induction n as [| n IH]; intros i rnd; cbn; [reflexivity |].
  destruct (f i rnd) as [a rnd1]. specialize (IH (S i) rnd1).
  destruct (arrayFrom n (S i) f rnd1) as [l rnd2]. cbn in *. rewrite IH. reflexivity.
Qed.

Lemma arrayFrom_random (n : nat) :
  forall i rnd, inUnitInterval rnd -> inUnitInterval (snd (arrayFrom n i f rnd)).
Proof.
  induction n as [| n IH]; intros i rnd H; cbn; [exact H |].
  pose proof (f_random i rnd H) as H1.
  destruct (f i rnd) as [a rnd1]. specialize (IH (S i) rnd1 H1).
  destruct (arrayFrom n (S i) f rnd1) as [l rnd2]. exact IH.
Qed.

Lemma arrayFrom_Forall (P : A -> Prop) (n : nat) :
  (forall i rnd, inUnitInterval rnd -> P (fst (f i rnd))) ->
  forall i rnd, inUnitInterval rnd -> Forall P (fst (arrayFrom n i f rnd)).
Proof.
  intros HP. induction n as [| n IH]; intros i rnd H; cbn; [constructor |].
  pose proof (f_random i rnd H) as H1. pose proof (HP i rnd H) as Pa.
  destruct (f i rnd) as [a rnd1]. specialize (IH (S i) rnd1 H1).
  destruct (arrayFrom n (S i) f rnd1) as [l rnd2]. constructor; assumption.
Qed.

Lemma arrayFrom_map {B : Type} (g : A -> B) (h : nat -> B) (n : nat) :
  (forall i rnd, g (fst (f i rnd)) = h i) ->
  forall i rnd, map g (fst (arrayFrom n i f rnd)) = map h (seq i n).
Proof.
  intros Hg. induction n as [| n IH]; intros i rnd; cbn; [reflexivity |].
  pose proof (Hg i rnd) as Ga.
  destruct (f i rnd) as [a rnd1]. specialize (IH (S i) rnd1).
  destruct (arrayFrom n (S i) f rnd1) as [l rnd2]. cbn in *. rewrite Ga, IH. reflexivity.
Qed.

End ArrayFrom.

Lemma newFish_random (vxy vz : R) (setHSL : R -> R -> R -> Color) (model : Mesh)
    (i : nat) (rnd : Random) :
  inUnitInterval rnd -> inUnitInterval (snd (newFish vxy vz setHSL model i rnd)).
Proof. intros H n. cbn. apply H. Qed.

Lemma newFish_id (vxy vz : R) (setHSL : R -> R -> R -> Color) (model : Mesh)
    (i : nat) (rnd : Random) :
  id (fst (newFish vxy vz setHSL model i rnd)) = Z.of_nat i.
Proof. reflexivity. Qed.

(** What every new fish is like, for an initial velocity of widths [vxy] and
    [vz]. *)
Lemma newFish_spec (vxy vz : R) (setHSL : R -> R -> R -> Color) (model : Mesh)
    (i : nat) (rnd : Random) :
  0 <= vxy -> 0 <= vz -> inUnitInterval rnd ->
  let fish := fst (newFish vxy vz setHSL model i rnd) in
  inSpawnBox (position fish) /\
  (- (vxy / 2) <= Vector3.x (velocity fish) <= vxy / 2 /\
   - (vxy / 2) <= Vector3.y (velocity fish) <= vxy / 2 /\
   - (vz / 2) <= Vector3.z (velocity fish) <= vz / 2) /\
  mesh fish = Some (mkMesh (position fish) (meshOrientation model)).
Proof.
  intros Hxy Hz H. cbn.
  pose proof (H 0%nat). pose proof (H 1%nat). pose proof (H 2%nat).
  pose proof (H 3%nat). pose proof (H 4%nat). pose proof (H 5%nat).
  unfold inSpawnBox. cbn. repeat split; try lra; nra.
Qed.

Lemma length_le_of_box (v : Vector3) (a b c d : R) :
  - a <= Vector3.x v <= a -> - b <= Vector3.y v <= b -> - c <= Vector3.z v <= c ->
  0 <= d -> a * a + b * b + c * c <= d * d ->
  Vector3.length v <= d.
Proof.
  intros Hx Hy Hz Hd H. apply sqr_le_le; [exact Hd |].
  replace (Vector3.length v * Vector3.length v) with (Vector3.lengthSq v)
    by (unfold Vector3.length; rewrite sqrt_sqrt by apply lengthSq_nonneg; reflexivity).
  unfold Vector3.lengthSq. nra.
Qed.

Lemma NoDup_map_injective {A B : Type} (g : A -> B) (l : list A) :
  (forall a b, g a = g b -> a = b) -> NoDup l -> NoDup (map g l).
Proof.
  intros Inj. induction 1 as [| a l Hn _ IH]; cbn; constructor; [| exact IH].
  intros Hin. apply in_map_iff in Hin. destruct Hin as (b & E & Hb).
  apply Inj in E. subst b. contradiction.
Qed.

(** The flock made from a model. *)
Lemma initializeFish_made (setHSL : R -> R -> R -> Color) (model : Mesh) (rnd : Random) :
  inUnitInterval rnd ->
  inUnitInterval (snd (initializeFish setHSL (Some model) rnd)) /\
  map id (fst (initializeFish setHSL (Some model) rnd)) = map Z.of_nat (seq 0 32) /\
  Forall
    (fun fish =>
       inSpawnBox (position fish) /\
       Vector3.length (velocity fish) <= 3 /\
       mesh fish = Some (mkMesh (position fish) (meshOrientation model)))
    (fst (initializeFish setHSL (Some model) rnd)).
Proof.
  intros H. unfold initializeFish.
  split; [apply arrayFrom_random; [apply newFish_random | exact H] |].
  split; [apply arrayFrom_map; intros; reflexivity |].
  apply arrayFrom_Forall; [apply newFish_random | | exact H].
  intros i r Hr.
  destruct (newFish_spec 4 1 setHSL model i r ltac:(lra) ltac:(lra) Hr)
    as (Box & (Vx & Vy & Vz) & M).
  split; [exact Box |]. split; [| exact M].
  apply (length_le_of_box _ 2 2 0.5); try lra.
Qed.

(** X11. [initializeFish] gives no fish without a model, and with a model 32
    fish whose ids are 0, 1, ..., 31 in this order (hence distinct).  Every
    fish has a mesh, placed where the fish is; its position is within
    [-200, 200) x [-200, 200) x [-50, 50) and its speed is below 3, well within
    the limit of 5 of the step. *)
Theorem initializeFish_flock :
  forall setHSL fishModel rnd,
    inUnitInterval rnd ->
    let fishes := fst (initializeFish setHSL fishModel rnd) in
    inUnitInterval (snd (initializeFish setHSL fishModel rnd)) /\
    match fishModel with
    | None => fishes = []
    | Some model =>
        List.length fishes = 32%nat /\
        map id fishes = map Z.of_nat (seq 0 32) /\
        NoDup (map id fishes) /\
        Forall
          (fun fish =>
             inSpawnBox (position fish) /\
             Vector3.length (velocity fish) <= 3 /\
             mesh fish = Some (mkMesh (position fish) (meshOrientation model)))
          fishes
    end.
Proof.
  intros setHSL fishModel rnd H. destruct fishModel as [model |]; cbn zeta.
  - destruct (initializeFish_made setHSL model rnd H) as (Hr & Ids & All).
    split; [exact Hr |].
    split; [unfold initializeFish; apply arrayFrom_length |]. split; [exact Ids |].
    split; [| exact All].
    rewrite Ids. apply NoDup_map_injective; [| apply seq_NoDup].
    intros a b. apply Nat2Z.inj.
  - split; [exact H | reflexivity].
Qed.

Lemma initializeFish_flock_sample :
  let fishes := fst (initializeFish (fun _ _ _ => white) (Some someMesh) steady) in
  inUnitInterval (snd (initializeFish (fun _ _ _ => white) (Some someMesh) steady)) /\
  List.length fishes = 32%nat /\
  map id fishes = map Z.of_nat (seq 0 32) /\
  NoDup (map id fishes) /\
  Forall
    (fun fish =>
       inSpawnBox (position fish) /\
       Vector3.length (velocity fish) <= 3 /\
       mesh fish = Some (mkMesh (position fish) (meshOrientation someMesh)))
    fishes.
Proof.
  exact (initializeFish_flock (fun _ _ _ => white) (Some someMesh) steady
           inUnitInterval_steady).
Defined.

Lemma newStar_random (w : Viewport) (rnd : Random) :
  inUnitInterval rnd -> inUnitInterval (snd (newStar w rnd)).
Proof. intros H n. cbn. apply H. Qed.

(** The stars as they are made. *)
Lemma initializeStars_made (w : Viewport) (rnd : Random) :
  inUnitInterval rnd ->
  List.length (fst (initializeStars w rnd)) = 80%nat /\
  Forall
    (fun star =>
       0 <= Star.x star <= INR (innerWidth w) /\
       (0 < INR (innerWidth w) -> Star.x star < INR (innerWidth w)) /\
       0 <= Star.y star <= INR (innerHeight w) /\
       (0 < INR (innerHeight w) -> Star.y star < INR (innerHeight w)) /\
       0.2 <= Star.opacity star < 0.5 /\
       0.2 <= Star.baseOpacity star < 0.5 /\
       0 <= Star.twinklePhase star < 2 * PI)
    (fst (initializeStars w rnd)).
Proof.
  intros H. unfold initializeStars. split; [apply arrayFrom_length |].
  apply (arrayFrom_Forall (fun _ => newStar w)); [intros _; apply newStar_random | | exact H].
  intros _ r Hr. cbn.
  pose proof (Hr 0%nat). pose proof (Hr 1%nat). pose proof (Hr 2%nat).
  pose proof (Hr 3%nat). pose proof (Hr 4%nat).
  pose proof (pos_INR (innerWidth w)). pose proof (pos_INR (innerHeight w)).
  pose proof PI_RGT_0.
  repeat split; try lra; try nra.
Qed.

(** X13. [initializeStars] gives 80 stars.  Every star lies in the window
    ([0 <= x <= innerWidth], [0 <= y <= innerHeight], strictly below when the
    window is not empty), its [opacity] and its [baseOpacity] are in
    [0.2, 0.5) and its [twinklePhase] in [0, 2 pi). *)
Theorem initializeStars_ranges :
  forall w rnd,
    inUnitInterval rnd ->
    let stars := fst (initializeStars w rnd) in
    inUnitInterval (snd (initializeStars w rnd)) /\
    List.length stars = 80%nat /\
    Forall
      (fun star =>
         0 <= Star.x star <= INR (innerWidth w) /\
         (0 < INR (innerWidth w) -> Star.x star < INR (innerWidth w)) /\
         0 <= Star.y star <= INR (innerHeight w) /\
         (0 < INR (innerHeight w) -> Star.y star < INR (innerHeight w)) /\
         0.2 <= Star.opacity star < 0.5 /\
         0.2 <= Star.baseOpacity star < 0.5 /\
         0 <= Star.twinklePhase star < 2 * PI)
      stars.
Proof.
  intros w rnd H. cbn zeta.
  destruct (initializeStars_made w rnd H) as [L All].
  split; [| split; [exact L | exact All]].
  unfold initializeStars.
  apply (arrayFrom_random (fun _ => newStar w)); [intros _; apply newStar_random | exact H].
Qed.

Lemma initializeStars_ranges_sample :
  let stars := fst (initializeStars smallWindow steady) in
  inUnitInterval (snd (initializeStars smallWindow steady)) /\
  List.length stars = 80%nat /\
  Forall
    (fun star =>
       0 <= Star.x star <= INR (innerWidth smallWindow) /\
       (0 < INR (innerWidth smallWindow) -> Star.x star < INR (innerWidth smallWindow)) /\
       0 <= Star.y star <= INR (innerHeight smallWindow) /\
       (0 < INR (innerHeight smallWindow) -> Star.y star < INR (innerHeight smallWindow)) /\
       0.2 <= Star.opacity star < 0.5 /\
       0.2 <= Star.baseOpacity star < 0.5 /\
       0 <= Star.twinklePhase star < 2 * PI)
    stars.
Proof. exact (initializeStars_ranges smallWindow steady inUnitInterval_steady). Defined.

(** * Beyond the specification: the stars frame after frame *)

Lemma twinkle_twinkled (n : nat) (star : Star) :
  twinkle (twinkled n star) = twinkled (S n) star.
Proof.
  unfold twinkle, twinkled. cbn [Star.x Star.y Star.baseOpacity Star.twinklePhase].
  assert (E : Star.twinklePhase star + INR n * 0.02 + 0.02
              = Star.twinklePhase star + INR (S n) * 0.02)
    by (rewrite S_INR; lra).
  rewrite E. reflexivity.
Qed.

Lemma twinkle_once (star : Star) : twinkle star = twinkled 1 star.
Proof.
  unfold twinkle, twinkled.
  assert (E : Star.twinklePhase star + 0.02 = Star.twinklePhase star + INR 1 * 0.02)
    by (cbn; lra).
  rewrite E. reflexivity.
Qed.

Lemma iter_twinkle (n : nat) (star : Star) :
  Nat.iter (S n) twinkle star = twinkled (S n) star.
Proof.
  induction n as [| n IH].
  - cbn. apply twinkle_once.
  - change (Nat.iter (S (S n)) twinkle star) with (twinkle (Nat.iter (S n) twinkle star)).
    rewrite IH. apply twinkle_twinkled.
Qed.

Lemma iter_drawStars (canvas : Canvas) (n : nat) (stars : list Star) :
  context2d canvas = true ->
  Nat.iter n (fun l => fst (drawStars (Some canvas) l)) stars
  = map (Nat.iter n twinkle) stars.
Proof.
  intros H. induction n as [| n IH].
  - cbn. symmetry. apply map_id.
  - cbn [Nat.iter nat_rect]. unfold Nat.iter in IH. rewrite IH.
    unfold drawStars. rewrite H. cbn [fst]. rewrite map_map. reflexivity.
Qed.

(** X14. After [n + 1] calls of [drawStars] on a canvas with a 2D context
    every star has its phase advanced by [0.02 * (n + 1)] and the opacity
    [baseOpacity + 0.1 * sin(phase)] of that phase, which is within 0.1 of
    [baseOpacity]; position and [baseOpacity] are as at the start, and the
    opacity the star started with plays no part.  Without a canvas, or without
    a 2D context, the stars never change. *)
Theorem stars_after_frames :
  (forall canvas stars n,
      context2d canvas = true ->
      Nat.iter (S n) (fun l => fst (drawStars (Some canvas) l)) stars
      = map (twinkled (S n)) stars /\
      Forall
        (fun star =>
           Star.baseOpacity star - 0.1 <= Star.opacity (twinkled (S n) star)
           <= Star.baseOpacity star + 0.1)
        stars) /\
  (forall canvas stars n,
      context2d canvas = false ->
      Nat.iter n (fun l => fst (drawStars (Some canvas) l)) stars = stars /\
      snd (drawStars (Some canvas) stars) = []) /\
  (forall stars n,
      Nat.iter n (fun l => fst (drawStars None l)) stars = stars /\
      snd (drawStars None stars) = []).
Proof.
  split; [| split].
  - intros canvas stars n H. split.
    + rewrite iter_drawStars by exact H. apply map_ext. intros star. apply iter_twinkle.
    + apply Forall_forall. intros star _. unfold twinkled. cbn [Star.opacity].
      pose proof (SIN_bound (Star.twinklePhase star + INR (S n) * 0.02)). lra.
  - intros canvas stars n H. split.
    + induction n as [| n IH]; [reflexivity |].
      cbn [Nat.iter nat_rect]. unfold Nat.iter in IH. rewrite IH.
      unfold drawStars. rewrite H. reflexivity.
    + unfold drawStars. rewrite H. reflexivity.
  - intros stars n. split; [| reflexivity].
    induction n as [| n IH]; [reflexivity |].
    cbn [Nat.iter nat_rect]. unfold Nat.iter in IH. rewrite IH. reflexivity.
Qed.

Lemma stars_after_frames_sample :
  Nat.iter 3 (fun l => fst (drawStars (Some (mkCanvas 100 100 true)) l)) [dimStar]
  = [twinkled 3 dimStar] /\
  Nat.iter 3 (fun l => fst (drawStars (Some (mkCanvas 100 100 false)) l)) [dimStar]
  = [dimStar].
Proof.
  split.
  - apply (proj1 stars_after_frames (mkCanvas 100 100 true) [dimStar] 2%nat eq_refl).
  - apply (proj1 (proj2 stars_after_frames) (mkCanvas 100 100 false) [dimStar] 3%nat eq_refl).
Defined.

(** * Beyond the specification: the mounted component, event after event *)

Lemma jitter_random (rnd : Random) : inUnitInterval rnd -> inUnitInterval (snd (jitter rnd)).
Proof. intros H n. cbn. apply H. Qed.

Lemma forEachFish_random (maxSpeed damping : R) (w : Viewport) (mousePosition : Mouse.t) :
  forall rest updated rnd res rnd',
    forEachFish maxSpeed damping w mousePosition updated rest rnd = Some (res, rnd') ->
    inUnitInterval rnd -> inUnitInterval rnd'.
Proof.
  induction rest as [| fish rest IH]; intros updated rnd res rnd' H Hr.
  - cbn in H. injection H as _ <-. exact Hr.
  - cbn [forEachFish] in H. destruct (mesh fish) as [m |].
    + destruct (updateFish_spec maxSpeed damping w mousePosition
                  (updated ++ fish :: rest) fish m rnd) as (bf & mv & o & _ & _ & E).
      rewrite E in H. cbn [bind fst snd] in H.
      apply (IH _ _ _ _ H). apply jitter_random, Hr.
    + apply (IH _ _ _ _ H Hr).
Qed.

Lemma Forall2_afterStep_meshed (Q : Fish -> Fish -> Prop) (l l' : list Fish) :
  Forall (fun fish => mesh fish <> None) l ->
  Forall2 (afterStep Q) l l' -> Forall2 Q l l'.
Proof.
  intros H F. induction F as [| f f' l l' Hf _ IH]; [constructor |].
  inversion H as [| ? ? Hm Hl]; subst. constructor; [| apply IH, Hl].
  unfold afterStep in Hf. destruct (mesh f); [exact Hf | contradiction].
Qed.

Lemma Forall2_Forall_r {A B : Type} (Q : A -> B -> Prop) (P : B -> Prop)
    (l : list A) (l' : list B) :
  (forall a b, Q a b -> P b) -> Forall2 Q l l' -> Forall P l'.
Proof. intros H. induction 1; constructor; eauto. Qed.

Lemma updateFish_meshInPlace (maxSpeed damping : R) (w : Viewport) (mousePosition : Mouse.t)
    (fishes : list Fish) (fish : Fish) (m : Mesh) (rnd : Random) (r : Fish * Random) :
  updateFish maxSpeed damping w mousePosition fishes fish m rnd = Some r ->
  meshInPlace (fst r).
Proof.
  intros H.
  destruct (updateFish_spec maxSpeed damping w mousePosition fishes fish m rnd)
    as (bf & mv & o & _ & _ & E).
  rewrite E in H. injection H as <-. reflexivity.
Qed.

Lemma updateFish_app (w : Viewport) (mousePosition : Mouse.t)
    (fishes : list Fish) (fish : Fish) (m : Mesh) (rnd : Random) (r : Fish * Random) :
  updateFish 3 0.99 w mousePosition fishes fish m rnd = Some r ->
  id (fst r) = id fish /\
  (mesh (fst r) <> None /\ meshInPlace (fst r) /\
   Vector3.length (velocity (fst r)) <= 3) /\
  inBounds w (position (fst r)).
Proof.
  intros H. pose proof (updateFish_meshInPlace _ _ _ _ _ _ _ _ _ H) as M.
  apply updateFish_bounds in H; [| lra | lra].
  destruct H as (V & B & I & _ & N).
  split; [exact I |]. split; [| exact B].
  split; [exact N |]. split; [exact M | lra].
Qed.

(** One frame of the flock of [App.tsx]. *)
Lemma animateFishes_flock (fishes : list Fish) (mousePosition : Mouse.t) (w : Viewport)
    (rnd : Random) :
  flockOfApp fishes -> inUnitInterval rnd ->
  exists fishes' rnd',
    animateFishes fishes mousePosition w rnd = Some (fishes', rnd') /\
    flockOfApp fishes' /\ inUnitInterval rnd' /\
    (fishes = [] -> fishes' = []) /\
    Forall (fun fish => inBounds w (position fish)) fishes'.
Proof.
  intros [Ids All] Hr. unfold animateFishes.
  destruct (forEachFish_afterStep 3 0.99 w mousePosition
              (fun fish fish' =>
                 id fish' = id fish /\
                 (mesh fish' <> None /\ meshInPlace fish' /\
                  Vector3.length (velocity fish') <= 3) /\
                 inBounds w (position fish'))
              (updateFish_app w mousePosition)
              fishes [] rnd) as (fishes' & rnd' & E & F).
  cbn [app] in E. exists fishes', rnd'. split; [exact E |].
  apply Forall2_afterStep_meshed in F;
    [| revert All; apply Forall_impl; intros f H; apply H].
  split; [split |]; [| | split; [| split]].
  - destruct Ids as [-> | Ids].
    + inversion F. left. reflexivity.
    + right. rewrite <- Ids. apply Forall2_map_eq. revert F. apply Forall2_impl.
      intros f f' H. apply H.
  - revert F. apply Forall2_Forall_r. intros f f' H. apply H.
  - apply (forEachFish_random _ _ _ _ _ _ _ _ _ E Hr).
  - intros ->. inversion F. reflexivity.
  - revert F. apply Forall2_Forall_r. intros f f' H. apply H.
Qed.

Lemma half_opposite (a : R) : a / -2 = - (a / 2).
Proof. lra. Qed.

Lemma camera_of_window (w : Viewport) (n f : R) :
  mkCamera (INR (innerWidth w) / -2) (INR (innerWidth w) / 2)
    (INR (innerHeight w) / 2) (INR (innerHeight w) / -2) n f
  = mkCamera (- halfWidth w) (halfWidth w) (halfHeight w) (- halfHeight w) n f.
Proof. rewrite !half_opposite. reflexivity. Qed.

Lemma drawStars_sameStars (canvas : option Canvas) (stars0 stars : list Star) :
  sameStars stars0 stars -> sameStars stars0 (fst (drawStars canvas stars)).
Proof.
  intros H. unfold drawStars. destruct canvas as [c |]; [| exact H].
  destruct (context2d c); [| exact H]. cbn [fst].
  destruct H as (Hx & Hy & Hb). unfold sameStars. rewrite !map_map.
  cbn [twinkle Star.x Star.y Star.baseOpacity]. repeat split; assumption.
Qed.

Lemma mounted_steady (has2d : bool) (w : Viewport) (rnd : Random) :
  inUnitInterval rnd ->
  steadyWorld has2d (fst (initializeStars w rnd)) (mounted has2d w rnd).
Proof.
  intros H. unfold mounted, mount.
  pose proof (arrayFrom_random (fun _ => newStar w)
                (fun _ r Hr => newStar_random w r Hr) 80 0 rnd H) as Hr.
  fold (initializeStars w rnd) in Hr.
  destruct (initializeStars w rnd) as [stars rnd']. cbn [fst snd] in *.
  unfold steadyWorld. cbn [window refs randomness fishesRef starsRef].
  split; [| split; [| split]].
  - unfold followsWindow. cbn. rewrite camera_of_window. repeat split.
  - split; [left; reflexivity | constructor].
  - repeat split.
  - exact Hr.
Qed.

Lemma initializeFishRef_flock (setHSL : R -> R -> R -> Color) (s : ThreeFishScene)
    (rnd : Random) :
  flockOfApp (fishesRef s) -> inUnitInterval rnd ->
  let s' := fst (initializeFishRef setHSL s rnd) in
  flockOfApp (fishesRef s') /\
  inUnitInterval (snd (initializeFishRef setHSL s rnd)) /\
  sceneRef s' = sceneRef s /\ rendererRef s' = rendererRef s /\
  cameraRef s' = cameraRef s /\ animationRef s' = animationRef s /\
  canvasRef s' = canvasRef s /\ starsRef s' = starsRef s /\ mouseRef s' = mouseRef s.
Proof.
  intros F H. cbn zeta. unfold initializeFishRef.
  destruct (fishModelRef s) as [model |];
    [| cbn [fst snd]; split; [exact F | split; [exact H | repeat split]]].
  destruct (sceneRef s) eqn:Es;
    [| cbn [fst snd]; split; [exact F | split; [exact H | repeat split; exact Es]]].
  pose proof (arrayFrom_random (newFish 2 0.5 setHSL model)
                (newFish_random 2 0.5 setHSL model) 32 0 rnd H) as Hr.
  pose proof (arrayFrom_map (newFish 2 0.5 setHSL model) id Z.of_nat 32
                (newFish_id 2 0.5 setHSL model) 0 rnd) as Ids.
  assert (Each : forall i r,
             inUnitInterval r ->
             mesh (fst (newFish 2 0.5 setHSL model i r)) <> None /\
             meshInPlace (fst (newFish 2 0.5 setHSL model i r)) /\
             Vector3.length (velocity (fst (newFish 2 0.5 setHSL model i r))) <= 3).
  { intros i r Hi.
    destruct (newFish_spec 2 0.5 setHSL model i r ltac:(lra) ltac:(lra) Hi)
      as (_ & (Vx & Vy & Vz) & M).
    split; [rewrite M; discriminate |]. split.
    - unfold meshInPlace. rewrite M. reflexivity.
    - apply (length_le_of_box _ 1 1 0.25); lra. }
  pose proof (arrayFrom_Forall (newFish 2 0.5 setHSL model)
                (newFish_random 2 0.5 setHSL model)
                (fun fish =>
                   mesh fish <> None /\ meshInPlace fish /\
                   Vector3.length (velocity fish) <= 3) 32 Each 0 rnd H) as All.
  destruct (arrayFrom 32 0 (newFish 2 0.5 setHSL model) rnd) as [fishes rnd'].
  cbn [fst snd fishesRef sceneRef rendererRef cameraRef animationRef canvasRef
         starsRef mouseRef] in *.
  split; [| split; [exact Hr | repeat split]].
  split; [right; exact Ids | exact All].
Qed.

(** Every event keeps the component steady; a frame puts the flock within the
    bounds, an event other than a successful load keeps an empty flock empty. *)
Lemma handle_steady (setHSL : R -> R -> R -> Color) (has2d : bool) (stars0 : list Star)
    (e : Event) (world : World) :
  steadyWorld has2d stars0 world ->
  exists world',
    handle setHSL e world = Some world' /\
    steadyWorld has2d stars0 world' /\
    window world' = match e with Resize w => w | _ => window world end /\
    (e = AnimationFrame ->
     Forall (fun fish => inBounds (window world') (position fish))
       (fishesRef (refs world')) /\
     starsRef (refs world')
     = fst (drawStars (canvasRef (refs world)) (starsRef (refs world)))) /\
    ((forall model, e <> ModelLoaded (Some model)) ->
     fishesRef (refs world) = [] -> fishesRef (refs world') = []).
Proof.
  destruct world as [w s rnd]. intros (Fw & Fl & St & Hr).
  cbn [window refs randomness] in *.
  destruct Fw as (Sc & An & Re & Ca & Cv).
  destruct e as [w' | cx cy | loaded |].
  - eexists. split; [reflexivity |]. cbn [window refs randomness].
    split; [| split; [reflexivity | split; [discriminate | intros _ E; exact E]]].
    split; [| split; [exact Fl | split; [exact St | exact Hr]]].
    unfold followsWindow, handleResize.
    cbn [sceneRef animationRef rendererRef cameraRef canvasRef].
    rewrite Re, Ca, Cv. cbn [option_map near far context2d].
    rewrite camera_of_window. repeat split; assumption.
  - eexists. split; [reflexivity |]. cbn [window refs randomness].
    split; [| split; [reflexivity | split; [discriminate | intros _ E; exact E]]].
    split; [| split; [exact Fl | split; [exact St | exact Hr]]].
    unfold followsWindow. cbn. repeat split; assumption.
  - destruct loaded as [model |].
    + cbn [handle loadFishModel refs window randomness].
      pose proof (initializeFishRef_flock setHSL
                    (mkScene (sceneRef s) (rendererRef s) (cameraRef s) (animationRef s)
                       (mouseRef s) (fishesRef s) (Some model) (canvasRef s) (starsRef s))
                    rnd Fl Hr) as H.
      cbn zeta in H. cbn [sceneRef rendererRef cameraRef animationRef canvasRef starsRef
                            mouseRef] in H.
      destruct (initializeFishRef setHSL _ rnd) as [s' rnd'].
      cbn [fst snd] in H. destruct H as (Fl' & Hr' & E1 & E2 & E3 & E4 & E5 & E6 & _).
      eexists. split; [reflexivity |]. cbn [window refs randomness].
      split; [| split; [reflexivity | split; [discriminate |]]].
      * unfold steadyWorld. cbn [window refs randomness].
        split; [| split; [exact Fl' | split; [rewrite E6; exact St | exact Hr']]].
        unfold followsWindow. rewrite E1, E2, E3, E4, E5. repeat split; assumption.
      * intros N. exfalso. apply (N model). reflexivity.
    + eexists. split; [reflexivity |]. cbn [window refs randomness].
      split; [| split; [reflexivity | split; [discriminate | intros _ E; exact E]]].
      split; [split; [| split; [| split; [| split]]]; assumption |].
      split; [exact Fl | split; [exact St | exact Hr]].
  - cbn [handle refs window randomness]. rewrite An. unfold animate.
    rewrite Re, Sc, Ca.
    destruct (animateFishes_flock (fishesRef s) (mouseRef s) w rnd Fl Hr)
      as (fishes' & rnd' & E & Fl' & Hr' & Empty & Bounds).
    rewrite E. cbn [bind fst snd].
    eexists. split; [reflexivity |]. cbn [window refs randomness fishesRef starsRef].
    split; [| split; [reflexivity | split; [intros _; split; [exact Bounds | reflexivity] |]]].
    + split; [| split; [exact Fl' | split; [apply drawStars_sameStars, St | exact Hr']]].
      unfold followsWindow. cbn. rewrite ?Re, ?Sc, ?Ca, ?Cv. repeat split.
    + intros _. exact Empty.
Qed.

Lemma run_app (setHSL : R -> R -> R -> Color) (events1 events2 : list Event) :
  forall world,
    run setHSL (events1 ++ events2) world
    = (world' <- run setHSL events1 world ;; run setHSL events2 world').
Proof.
  induction events1 as [| e events1 IH]; intros world; [reflexivity |].
  cbn [app run]. destruct (handle setHSL e world) as [world1 |]; [apply IH | reflexivity].
Qed.

(** The window after the events: that of the last resize. *)
Lemma run_steady (setHSL : R -> R -> R -> Color) (has2d : bool) (stars0 : list Star)
    (events : list Event) :
  forall world,
    steadyWorld has2d stars0 world ->
    exists world',
      run setHSL events world = Some world' /\
      steadyWorld has2d stars0 world' /\
      window world'
      = fold_left (fun w e => match e with Resize w' => w' | _ => w end)
          events (window world) /\
      (neverLoaded events ->
       fishesRef (refs world) = [] -> fishesRef (refs world') = []).
Proof.
  induction events as [| e events IH]; intros world H.
  - exists world. split; [reflexivity |]. split; [exact H |].
    split; [reflexivity | intros _ E; exact E].
  - destruct (handle_steady setHSL has2d stars0 e world H)
      as (world1 & E1 & H1 & W1 & _ & Empty1).
    destruct (IH world1 H1) as (world' & E' & H' & W' & Empty').
    exists world'. cbn [run]. rewrite E1. cbn [bind].
    split; [exact E' |]. split; [exact H' |]. split.
    + cbn [fold_left]. rewrite W', W1. reflexivity.
    + intros N E. apply Empty'.
      * intros model Hin. apply (N model). right. exact Hin.
      * apply Empty1; [| exact E].
        intros model ->. apply (N model). left. reflexivity.
Qed.

(** X15. Whatever happens to the mounted component (resizes, pointer moves,
    the model loading or failing, frames) no step fails, the refs stay set and
    the next frame stays requested, so the animation never stops.  The window
    is that of the last resize, and renderer, canvas and camera have its size:
    the frustum of the camera is [-halfWidth, halfWidth] x [-halfHeight,
    halfHeight], its near and far planes stay at -200 and 1000. *)
Theorem scene_follows_the_window :
  forall setHSL has2d w rnd events,
    inUnitInterval rnd ->
    exists world,
      run setHSL events (mounted has2d w rnd) = Some world /\
      window world = windowAfter events w /\
      followsWindow has2d (window world) (refs world).
Proof.
  intros setHSL has2d w rnd events H.
  destruct (run_steady setHSL has2d _ events _ (mounted_steady has2d w rnd H))
    as (world & E & (Fw & _) & W & _).
  exists world. split; [exact E |]. split; [exact W | exact Fw].
Qed.

Lemma scene_follows_the_window_sample :
  exists world,
    run plainColor someEvents (mounted true smallWindow steady) = Some world /\
    window world = mkViewport 300 200 /\
    followsWindow true (window world) (refs world).
Proof.
  exact (scene_follows_the_window plainColor true smallWindow steady someEvents
           inUnitInterval_steady).
Defined.

(** X16. At every moment the flock of the mounted component is either empty
    or made of 32 fish whose ids are 0 to 31 in this order; every fish has a
    mesh and the mesh is where the fish is. *)
Theorem flock_is_stable :
  forall setHSL has2d w rnd events,
    inUnitInterval rnd ->
    exists world,
      run setHSL events (mounted has2d w rnd) = Some world /\
      (fishesRef (refs world) = [] \/
       map id (fishesRef (refs world)) = map Z.of_nat (seq 0 32)) /\
      Forall
        (fun fish => exists m, mesh fish = Some m /\ meshPosition m = position fish)
        (fishesRef (refs world)).
Proof.
  intros setHSL has2d w rnd events H.
  destruct (run_steady setHSL has2d _ events _ (mounted_steady has2d w rnd H))
    as (world & E & (_ & (Ids & All) & _) & _).
  exists world. split; [exact E |]. split; [exact Ids |].
  revert All. apply Forall_impl. intros fish (N & M & _).
  unfold meshInPlace in M. destruct (mesh fish) as [m |]; [| contradiction].
  exists m. split; [reflexivity | exact M].
Qed.

Lemma flock_is_stable_sample :
  exists world,
    run plainColor someEvents (mounted true smallWindow steady) = Some world /\
    (fishesRef (refs world) = [] \/
     map id (fishesRef (refs world)) = map Z.of_nat (seq 0 32)) /\
    Forall
      (fun fish => exists m, mesh fish = Some m /\ meshPosition m = position fish)
      (fishesRef (refs world)).
Proof.
  exact (flock_is_stable plainColor true smallWindow steady someEvents
           inUnitInterval_steady).
Defined.

(** X17. In the mounted component no fish is ever faster than the limit 3
    of [animate]: not when the flock is created, and not after any number of
    frames and other events. *)
Theorem speed_never_above_limit :
  forall setHSL has2d w rnd events,
    inUnitInterval rnd ->
    exists world,
      run setHSL events (mounted has2d w rnd) = Some world /\
      Forall (fun fish => Vector3.length (velocity fish) <= 3) (fishesRef (refs world)).
Proof.
  intros setHSL has2d w rnd events H.
  destruct (run_steady setHSL has2d _ events _ (mounted_steady has2d w rnd H))
    as (world & E & (_ & (_ & All) & _) & _).
  exists world. split; [exact E |].
  revert All. apply Forall_impl. intros fish (_ & _ & V). exact V.
Qed.

Lemma speed_never_above_limit_sample :
  exists world,
    run plainColor someEvents (mounted true smallWindow steady) = Some world /\
    Forall (fun fish => Vector3.length (velocity fish) <= 3) (fishesRef (refs world)).
Proof.
  exact (speed_never_above_limit plainColor true smallWindow steady someEvents
           inUnitInterval_steady).
Defined.

(** X18. At the end of every frame every fish is within the bounds of the
    window as it is then, and so inside the frustum of the camera on x and
    y, and between -100 and 100 on z. *)
Theorem frame_leaves_the_flock_on_screen :
  forall setHSL has2d w rnd events,
    inUnitInterval rnd ->
    exists world camera,
      run setHSL (events ++ [AnimationFrame]) (mounted has2d w rnd) = Some world /\
      cameraRef (refs world) = Some camera /\
      Forall
        (fun fish =>
           inBounds (window world) (position fish) /\
           inFrustum camera (position fish) /\
           - 100 <= Vector3.z (position fish) <= 100)
        (fishesRef (refs world)).
Proof.
  intros setHSL has2d w rnd events H.
  destruct (run_steady setHSL has2d _ events _ (mounted_steady has2d w rnd H))
    as (world1 & E1 & H1 & _).
  destruct (handle_steady setHSL has2d _ AnimationFrame world1 H1)
    as (world & E & ((_ & _ & _ & Ca & _) & _) & _ & Frame & _).
  destruct (Frame eq_refl) as [Bounds _].
  eexists world, _. rewrite run_app, E1. cbn [bind run]. rewrite E. cbn [bind].
  split; [reflexivity |]. split; [exact Ca |].
  revert Bounds. apply Forall_impl. intros fish B. split; [exact B |].
  unfold inFrustum. cbn [left right top bottom]. unfold inBounds in B.
  destruct B as (Bx & By & Bz). repeat split; lra.
Qed.

Lemma frame_leaves_the_flock_on_screen_sample :
  exists world camera,
    run plainColor (someEvents ++ [AnimationFrame]) (mounted true smallWindow steady)
    = Some world /\
    cameraRef (refs world) = Some camera /\
    Forall
      (fun fish =>
         inBounds (window world) (position fish) /\
         inFrustum camera (position fish) /\
         - 100 <= Vector3.z (position fish) <= 100)
      (fishesRef (refs world)).
Proof.
  exact (frame_leaves_the_flock_on_screen plainColor true smallWindow steady someEvents
           inUnitInterval_steady).
Defined.

Lemma Forall_of_map_eq {A B : Type} (g : A -> B) (P : B -> Prop) (l l0 : list A) :
  map g l = map g l0 -> Forall (fun a => P (g a)) l0 -> Forall (fun a => P (g a)) l.
Proof. intros E H. apply Forall_map. rewrite E. apply Forall_map. exact H. Qed.

Lemma Forall_both {A : Type} (P Q : A -> Prop) (l : list A) :
  Forall P l -> Forall Q l -> Forall (fun a => P a /\ Q a) l.
Proof. induction 1; intros HQ; inversion HQ; subst; constructor; auto. Qed.

(** The stars of a steady world, against the window [w] they were created for. *)
Lemma steady_stars (w : Viewport) (rnd : Random) (stars : list Star) :
  inUnitInterval rnd ->
  sameStars (fst (initializeStars w rnd)) stars ->
  List.length stars = 80%nat /\
  Forall
    (fun star =>
       (0 <= Star.x star <= INR (innerWidth w) /\
        0 <= Star.y star <= INR (innerHeight w)) /\
       0.2 <= Star.baseOpacity star < 0.5)
    stars.
Proof.
  intros H (Sx & Sy & Sb).
  destruct (initializeStars_made w rnd H) as (L & All).
  split.
  - rewrite <- (length_map Star.x), Sx, length_map. exact L.
  - apply Forall_both; [apply Forall_both |].
    + apply (Forall_of_map_eq Star.x (fun x => 0 <= x <= INR (innerWidth w)) _ _ Sx).
      revert All. apply Forall_impl. intros star S. apply S.
    + apply (Forall_of_map_eq Star.y (fun y => 0 <= y <= INR (innerHeight w)) _ _ Sy).
      revert All. apply Forall_impl. intros star S. apply S.
    + apply (Forall_of_map_eq Star.baseOpacity (fun b => 0.2 <= b < 0.5) _ _ Sb).
      revert All. apply Forall_impl. intros star S. apply S.
Qed.

(** X19. The stars are created once and stay put: whatever the events,
    there are 80 stars with the positions and the [baseOpacity] they were
    given at mount; they lie in the window as it was then (a resize does
    not move them) and their [baseOpacity] is in [0.2, 0.5). *)
Theorem stars_stay_in_place :
  forall setHSL has2d w rnd events,
    inUnitInterval rnd ->
    exists world,
      run setHSL events (mounted has2d w rnd) = Some world /\
      List.length (starsRef (refs world)) = 80%nat /\
      map Star.x (starsRef (refs world)) = map Star.x (fst (initializeStars w rnd)) /\
      map Star.y (starsRef (refs world)) = map Star.y (fst (initializeStars w rnd)) /\
      map Star.baseOpacity (starsRef (refs world))
      = map Star.baseOpacity (fst (initializeStars w rnd)) /\
      Forall
        (fun star =>
           (0 <= Star.x star <= INR (innerWidth w) /\
            0 <= Star.y star <= INR (innerHeight w)) /\
           0.2 <= Star.baseOpacity star < 0.5)
        (starsRef (refs world)).
Proof.
  intros setHSL has2d w rnd events H.
  destruct (run_steady setHSL has2d _ events _ (mounted_steady has2d w rnd H))
    as (world & E & (_ & _ & St & _) & _).
  destruct (steady_stars w rnd _ H St) as [L All].
  destruct St as (Sx & Sy & Sb).
  exists world. repeat (split; [assumption |]). exact All.
Qed.

Lemma stars_stay_in_place_sample :
  exists world,
    run plainColor someEvents (mounted true smallWindow steady) = Some world /\
    List.length (starsRef (refs world)) = 80%nat /\
    map Star.x (starsRef (refs world))
    = map Star.x (fst (initializeStars smallWindow steady)) /\
    map Star.y (starsRef (refs world))
    = map Star.y (fst (initializeStars smallWindow steady)) /\
    map Star.baseOpacity (starsRef (refs world))
    = map Star.baseOpacity (fst (initializeStars smallWindow steady)) /\
    Forall
      (fun star =>
         (0 <= Star.x star <= INR (innerWidth smallWindow) /\
          0 <= Star.y star <= INR (innerHeight smallWindow)) /\
         0.2 <= Star.baseOpacity star < 0.5)
      (starsRef (refs world)).
Proof.
  exact (stars_stay_in_place plainColor true smallWindow steady someEvents
           inUnitInterval_steady).
Defined.

(** X20. As long as no model has been loaded (the loading is pending or has
    failed) the flock is empty, while frames go on being requested and the
    stars drawn. *)
Theorem no_model_no_fish :
  forall setHSL has2d w rnd events,
    inUnitInterval rnd ->
    neverLoaded events ->
    exists world,
      run setHSL events (mounted has2d w rnd) = Some world /\
      fishesRef (refs world) = [] /\
      animationRef (refs world) = true.
Proof.
  intros setHSL has2d w rnd events H N.
  destruct (run_steady setHSL has2d _ events _ (mounted_steady has2d w rnd H))
    as (world & E & ((_ & An & _) & _) & _ & Empty).
  exists world. split; [exact E |]. split; [| exact An].
  apply Empty; [exact N |]. unfold mounted, mount.
  destruct (initializeStars w rnd). reflexivity.
Qed.

Lemma eventsWithoutModel_neverLoaded : neverLoaded eventsWithoutModel.
Proof.
  intros model H. unfold eventsWithoutModel in H. cbn in H.
  repeat destruct H as [H | H]; try discriminate H. exact H.
Qed.

Lemma no_model_no_fish_sample :
  exists world,
    run plainColor eventsWithoutModel (mounted true smallWindow steady) = Some world /\
    fishesRef (refs world) = [] /\
    animationRef (refs world) = true.
Proof.
  exact (no_model_no_fish plainColor true smallWindow steady eventsWithoutModel
           inUnitInterval_steady eventsWithoutModel_neverLoaded).
Defined.

(** X21. At the end of every frame drawn on a canvas with a 2D context the
    opacity of every star, which is the alpha it was just drawn with, is
    within 0.1 of its [baseOpacity] and so between 0.1 and 0.6: a valid
    alpha, whatever opacity the star was created with. *)
Theorem star_alpha_is_valid :
  forall setHSL w rnd events,
    inUnitInterval rnd ->
    exists world,
      run setHSL (events ++ [AnimationFrame]) (mounted true w rnd) = Some world /\
      Forall
        (fun star =>
           Star.baseOpacity star - 0.1 <= Star.opacity star <= Star.baseOpacity star + 0.1 /\
           0.1 <= Star.opacity star <= 0.6)
        (starsRef (refs world)).
Proof.
  intros setHSL w rnd events H.
  destruct (run_steady setHSL true _ events _ (mounted_steady true w rnd H))
    as (world1 & E1 & H1 & _).
  destruct (handle_steady setHSL true _ AnimationFrame world1 H1)
    as (world & E & _ & _ & Frame & _).
  destruct (Frame eq_refl) as [_ Stars].
  exists world. rewrite run_app, E1. cbn [bind run]. rewrite E. cbn [bind].
  split; [reflexivity |]. rewrite Stars.
  destruct H1 as ((_ & _ & _ & _ & Cv) & _ & St & _).
  rewrite Cv. unfold drawStars. cbn [context2d fst].
  destruct (steady_stars w rnd _ H St) as [_ All].
  apply Forall_map. revert All. apply Forall_impl. intros star (_ & B).
  unfold twinkle. cbn [Star.opacity Star.baseOpacity].
  pose proof (SIN_bound (Star.twinklePhase star + 0.02)). lra.
Qed.

Lemma star_alpha_is_valid_sample :
  exists world,
    run plainColor (someEvents ++ [AnimationFrame]) (mounted true smallWindow steady)
    = Some world /\
    Forall
      (fun star =>
         Star.baseOpacity star - 0.1 <= Star.opacity star <= Star.baseOpacity star + 0.1 /\
         0.1 <= Star.opacity star <= 0.6)
      (starsRef (refs world)).
Proof.
  exact (star_alpha_is_valid plainColor smallWindow steady someEvents inUnitInterval_steady).
Defined.

(** * Beyond the specification: the flock of fish-animation, frame after frame *)

Lemma updateFish_module (w : Viewport) (mousePosition : Mouse.t)
    (fishes : list Fish) (fish : Fish) (m : Mesh) (rnd : Random) (r : Fish * Random) :
  updateFish 5 0.98 w mousePosition fishes fish m rnd = Some r ->
  id (fst r) = id fish /\
  (mesh (fst r) <> None /\ meshInPlace (fst r) /\
   Vector3.length (velocity (fst r)) <= 4.9) /\
  inBounds w (position (fst r)).
Proof.
  intros H. pose proof (updateFish_meshInPlace _ _ _ _ _ _ _ _ _ H) as M.
  apply updateFish_bounds in H; [| lra | lra].
  destruct H as (V & B & I & _ & N).
  split; [exact I |]. split; [| exact B].
  split; [exact N |]. split; [exact M | lra].
Qed.

Lemma updateFishAnimation_flock (fishes : list Fish) (mousePosition : Mouse.t)
    (w : Viewport) (rnd : Random) :
  flockOfModule fishes -> inUnitInterval rnd ->
  exists fishes' rnd',
    updateFishAnimation fishes mousePosition w rnd = Some (fishes', rnd') /\
    flockOfModule fishes' /\ inUnitInterval rnd' /\
    Forall
      (fun fish =>
         inBounds w (position fish) /\ Vector3.length (velocity fish) <= 4.9)
      fishes'.
Proof.
  intros [Ids All] Hr. unfold updateFishAnimation.
  destruct (forEachFish_afterStep 5 0.98 w mousePosition
              (fun fish fish' =>
                 id fish' = id fish /\
                 (mesh fish' <> None /\ meshInPlace fish' /\
                  Vector3.length (velocity fish') <= 4.9) /\
                 inBounds w (position fish'))
              (updateFish_module w mousePosition)
              fishes [] rnd) as (fishes' & rnd' & E & F).
  cbn [app] in E. exists fishes', rnd'. split; [exact E |].
  apply Forall2_afterStep_meshed in F;
    [| revert All; apply Forall_impl; intros f H; apply H].
  split; [split |]; [| | split].
  - rewrite <- Ids. apply Forall2_map_eq. revert F. apply Forall2_impl.
    intros f f' H. apply H.
  - revert F. apply Forall2_Forall_r. intros f f' (_ & (N & M & V) & _).
    split; [exact N |]. split; [exact M | lra].
  - apply (forEachFish_random _ _ _ _ _ _ _ _ _ E Hr).
  - revert F. apply Forall2_Forall_r. intros f f' (_ & (_ & _ & V) & B).
    split; assumption.
Qed.

Lemma stepFrames_flock (frames : list (Mouse.t * Viewport)) :
  forall fishes rnd,
    flockOfModule fishes -> inUnitInterval rnd ->
    exists fishes' rnd',
      stepFrames frames fishes rnd = Some (fishes', rnd') /\
      flockOfModule fishes' /\ inUnitInterval rnd'.
Proof.
  induction frames as [| [mp w] frames IH]; intros fishes rnd F H.
  - exists fishes, rnd. split; [reflexivity |]. split; assumption.
  - destruct (updateFishAnimation_flock fishes mp w rnd F H)
      as (fishes1 & rnd1 & E1 & F1 & H1 & _).
    destruct (IH fishes1 rnd1 F1 H1) as (fishes' & rnd' & E' & F' & H').
    exists fishes', rnd'. cbn [stepFrames]. rewrite E1. cbn [bind fst snd].
    split; [exact E' |]. split; assumption.
Qed.

Lemma stepFrames_app (frames1 frames2 : list (Mouse.t * Viewport)) :
  forall fishes rnd,
    stepFrames (frames1 ++ frames2) fishes rnd
    = (r <- stepFrames frames1 fishes rnd ;; stepFrames frames2 (fst r) (snd r)).
Proof.
  induction frames1 as [| [mp w] frames1 IH]; intros fishes rnd; [reflexivity |].
  cbn [app stepFrames].
  destruct (updateFishAnimation fishes mp w rnd) as [r |]; [apply IH | reflexivity].
Qed.

(** X12. The flock made by [initializeFish] is never skipped by the step:
    after any number of frames, each with its own pointer and window, the
    array still holds the fish of ids 0 to 31, each with its mesh where the
    fish is; and at the end of a frame every fish is within the bounds of the
    window of that frame with a speed of at most 4.9. *)
Theorem module_flock_stays_on_screen :
  forall setHSL model rnd frames mousePosition w,
    inUnitInterval rnd ->
    exists fishes rnd',
      stepFrames (frames ++ [(mousePosition, w)])
        (fst (initializeFish setHSL (Some model) rnd))
        (snd (initializeFish setHSL (Some model) rnd))
      = Some (fishes, rnd') /\
      map id fishes = map Z.of_nat (seq 0 32) /\
      Forall
        (fun fish =>
           (exists m, mesh fish = Some m /\ meshPosition m = position fish) /\
           inBounds w (position fish) /\
           Vector3.length (velocity fish) <= 4.9)
        fishes.
Proof.
  intros setHSL model rnd frames mp w H.
  destruct (initializeFish_made setHSL model rnd H) as (Hr & Ids & All).
  assert (F0 : flockOfModule (fst (initializeFish setHSL (Some model) rnd))).
  { split; [exact Ids |]. revert All. apply Forall_impl. intros fish (_ & V & M).
    split; [rewrite M; discriminate |]. split; [| lra].
    unfold meshInPlace. rewrite M. reflexivity. }
  destruct (stepFrames_flock frames _ _ F0 Hr) as (fishes1 & rnd1 & E1 & F1 & H1).
  destruct (updateFishAnimation_flock fishes1 mp w rnd1 F1 H1)
    as (fishes & rnd' & E & (Ids' & All') & _ & B).
  exists fishes, rnd'. rewrite stepFrames_app, E1. cbn [bind fst snd stepFrames].
  rewrite E. cbn [bind fst snd]. split; [reflexivity |]. split; [exact Ids' |].
  pose proof (Forall_both _ _ _ All' B) as Both.
  revert Both. apply Forall_impl. intros fish ((N & M & _) & Bo & V).
  split; [| split; assumption].
  unfold meshInPlace in M. destruct (mesh fish) as [m |]; [| contradiction].
  exists m. split; [reflexivity | exact M].
Qed.

Lemma module_flock_stays_on_screen_sample :
  exists fishes rnd',
    stepFrames ([(mouseNear, smallWindow)] ++ [(mouseFar, mkViewport 300 200)])
      (fst (initializeFish plainColor (Some someMesh) steady))
      (snd (initializeFish plainColor (Some someMesh) steady))
    = Some (fishes, rnd') /\
    map id fishes = map Z.of_nat (seq 0 32) /\
    Forall
      (fun fish =>
         (exists m, mesh fish = Some m /\ meshPosition m = position fish) /\
         inBounds (mkViewport 300 200) (position fish) /\
         Vector3.length (velocity fish) <= 4.9)
      fishes.
Proof.
  exact (module_flock_stays_on_screen plainColor someMesh steady
           [(mouseNear, smallWindow)] mouseFar (mkViewport 300 200)
           inUnitInterval_steady).
Defined.

(** * Beyond the specification: jitter and pointer *)

(** X22. The jitter is tiny: with [Math.random()] in [0, 1) its components
    are within 0.005 on x and y and within 0.0025 on z, so that its length
    is at most 0.0075. *)
Theorem jitter_is_small :
  forall rnd,
    inUnitInterval rnd ->
    - 0.005 <= Vector3.x (fst (jitter rnd)) < 0.005 /\
    - 0.005 <= Vector3.y (fst (jitter rnd)) < 0.005 /\
    - 0.0025 <= Vector3.z (fst (jitter rnd)) < 0.0025 /\
    Vector3.length (fst (jitter rnd)) <= 0.0075 /\
    inUnitInterval (snd (jitter rnd)).
Proof.
  intros rnd H.
  pose proof (H 0%nat). pose proof (H 1%nat). pose proof (H 2%nat).
  assert (X : - 0.005 <= Vector3.x (fst (jitter rnd)) < 0.005) by (cbn; lra).
  assert (Y : - 0.005 <= Vector3.y (fst (jitter rnd)) < 0.005) by (cbn; lra).
  assert (Z : - 0.0025 <= Vector3.z (fst (jitter rnd)) < 0.0025) by (cbn; lra).
  repeat (split; [assumption |]). split; [| apply jitter_random, H].
  apply (length_le_of_box _ 0.005 0.005 0.0025); lra.
Qed.

Lemma jitter_is_small_sample :
  - 0.005 <= Vector3.x (fst (jitter steady)) < 0.005 /\
  - 0.005 <= Vector3.y (fst (jitter steady)) < 0.005 /\
  - 0.0025 <= Vector3.z (fst (jitter steady)) < 0.0025 /\
  Vector3.length (fst (jitter steady)) <= 0.0075 /\
  inUnitInterval (snd (jitter steady)).
Proof. exact (jitter_is_small steady inUnitInterval_steady). Defined.

(** X23. The pointer is mapped into the frame of the simulation with the y
    axis turned over: the centre of the window goes to the origin, a pointer
    inside the window goes to a point within the bounds of the flock on the
    plane z = 0, and a pointer higher on the screen goes to a higher point. *)
Theorem pointer_lands_in_bounds :
  (forall w, mousePos (Mouse.mk (halfWidth w) (halfHeight w)) w = Vector3.zero) /\
  (forall x y w,
      0 <= x <= INR (innerWidth w) ->
      0 <= y <= INR (innerHeight w) ->
      inBounds w (mousePos (Mouse.mk x y) w) /\
      Vector3.z (mousePos (Mouse.mk x y) w) = 0) /\
  (forall x y1 y2 w,
      y1 < y2 ->
      Vector3.y (mousePos (Mouse.mk x y1) w) > Vector3.y (mousePos (Mouse.mk x y2) w)).
Proof.
  split; [| split].
  - intros w. unfold mousePos, halfWidth, halfHeight. cbn.
    apply vector_eq; cbn; lra.
  - intros x y w Hx Hy. unfold inBounds, mousePos, halfWidth, halfHeight. cbn.
    repeat split; lra.
  - intros x y1 y2 w H. unfold mousePos. cbn. lra.
Qed.

Lemma pointer_lands_in_bounds_sample :
  (inBounds smallWindow (mousePos (Mouse.mk 30 70) smallWindow) /\
   Vector3.z (mousePos (Mouse.mk 30 70) smallWindow) = 0) /\
  Vector3.y (mousePos (Mouse.mk 30 10) smallWindow)
  > Vector3.y (mousePos (Mouse.mk 30 70) smallWindow).
Proof.
  split.
  - apply (proj1 (proj2 pointer_lands_in_bounds)); cbn [innerWidth innerHeight smallWindow];
      rewrite INR_IZR_INZ; cbn; lra.
  - apply (proj2 (proj2 pointer_lands_in_bounds)). lra.
Defined.

Lemma accumulated_within_reach (fish : Fish) (neighbors : list Fish) :
  accumulated fish (filter (coheres fish) neighbors) = accumulated fish neighbors.
Proof.
  unfold accumulated.
  rewrite (filter_filter_implied (repels fish)) by apply repels_coheres.
  rewrite (filter_filter_implied (aligns fish)) by apply aligns_coheres.
  rewrite (filter_filter_implied (coheres fish)) by (intros a H; exact H).
  reflexivity.
Qed.

(** X24. Steering is local: the fish at a distance of 120 or more play no
    part.  The force on a fish is the same when the array is cut down to the
    other fish closer than 120, and hence the same for two arrays that hold
    the same such fish in the same order. *)
Theorem steering_is_local :
  (forall fish neighbors mousePosition w,
      applyBoidRules fish neighbors mousePosition w
      = applyBoidRules fish (filter (coheres fish) neighbors) mousePosition w) /\
  (forall fish neighbors neighbors' mousePosition w,
      filter (coheres fish) neighbors = filter (coheres fish) neighbors' ->
      applyBoidRules fish neighbors mousePosition w
      = applyBoidRules fish neighbors' mousePosition w).
Proof.
  assert (Cut : forall fish neighbors mousePosition w,
      applyBoidRules fish neighbors mousePosition w
      = applyBoidRules fish (filter (coheres fish) neighbors) mousePosition w).
  { intros fish neighbors mp w.
    rewrite !applyBoidRules_accumulated, accumulated_within_reach. reflexivity. }
  split; [exact Cut |].
  intros fish neighbors neighbors' mp w E.
  rewrite (Cut fish neighbors), (Cut fish neighbors'), E. reflexivity.
Qed.

Lemma steering_is_local_sample :
  applyBoidRules loneFish [loneFish; nearFish; farFish] mouseNear smallWindow
  = applyBoidRules loneFish [nearFish] mouseNear smallWindow.
Proof.
  apply (proj2 steering_is_local).
  pose proof distance_loneFish_nearFish as Near.
  pose proof distance_loneFish_farFish as Far.
  cbn [filter].
  assert (C1 : coheres loneFish loneFish = false) by reflexivity.
  assert (C2 : coheres loneFish nearFish = true)
    by (apply coheres_true; split; [cbn; discriminate | lra]).
  assert (C3 : coheres loneFish farFish = false)
    by (apply not_true_false; rewrite coheres_true; intros [_ H]; lra).
  rewrite C1, C2, C3. reflexivity.
Defined.
